(** * Arkouda client: creation service and metadata utilities

    A shallow embedding of [arkouda/pdarraycreation.py] and
    [arkouda/numpy/util.py].  Python values are modelled by an inductive type,
    exceptions by an error monad, and the requests handed to [generic_msg] by
    a trace that every server round trip extends. *)

From Stdlib Require Import ZArith QArith String Ascii DecimalString Lia.
From stdpp Require Import base option list list_numbers sorting strings.

Local Open Scope Z_scope.
Set Warnings "-register-all".

(** ** Exceptions and results *)

(** The exception classes raised by the modelled code (the message text of an
    exception is not modelled). *)
Inductive exn : Type :=
  | TypeError
  | ValueError
  | RuntimeError
  | ZeroDivisionError
  | IndexError
  | KeyError
  | AttributeError
  | UnboundLocalError
  | UnicodeEncodeError
  | RecursionError.

Inductive result (A : Type) : Type :=
  | Ok (a : A)
  | Raise (e : exn).
Arguments Ok {A} a.
Arguments Raise {A} e.

Global Instance exn_eq_dec : EqDecision exn.
Proof. solve_decision. Defined.

Global Instance result_ret : MRet result := fun _ a => Ok a.
Global Instance result_bind : MBind result := fun _ _ f r =>
  match r with
  | Ok a => f a
  | Raise e => Raise e
  end.

Definition is_raise {A} (r : result A) : bool :=
  match r with
  | Ok _ => false
  | Raise _ => true
  end.

(** [sequence] collects the results of a list left to right and stops at the
    first exception. *)
Fixpoint sequence {A} (rs : list (result A)) : result (list A) :=
  match rs with
  | [] => Ok []
  | r :: rs' => x ← r; xs ← sequence rs'; Ok (x :: xs)
  end.

(** ** [util.broadcast_dims] *)

Module Broadcast.

(** [sa[n] if n >= 0 else 1], with Python's [IndexError] past the end. *)
Definition dim_or_one (s : list Z) (n : Z) : result Z :=
  if 0 <=? n then
    match s !! Z.to_nat n with
    | Some d => Ok d
    | None => Raise IndexError
    end
  else Ok 1.

(** The body of the [while] loop at index [i]. *)
Definition loop_body (sa sb : list Z) (N : Z) (i : nat)
    (shapeOut : list Z) : result (list Z) :=
  let Na := Z.of_nat (length sa) in
  let Nb := Z.of_nat (length sb) in
  let n1 := Na - N + Z.of_nat i in
  let n2 := Nb - N + Z.of_nat i in
  d1 ← dim_or_one sa n1;
  d2 ← dim_or_one sb n2;
  if d1 =? 1 then Ok (<[i := d2]> shapeOut)
  else if d2 =? 1 then Ok (<[i := d1]> shapeOut)
  else if d1 =? d2 then Ok (<[i := d1]> shapeOut)
  else Raise ValueError.

(** [while i >= 0: ...; i -= 1], entered with [i = k - 1]: the loop runs the
    body at [k - 1], [k - 2], ..., [0]. *)
Fixpoint while_loop (sa sb : list Z) (N : Z) (k : nat)
    (shapeOut : list Z) : result (list Z) :=
  match k with
  | O => Ok shapeOut
  | S i =>
      shapeOut' ← loop_body sa sb N i shapeOut;
      while_loop sa sb N i shapeOut'
  end.

Definition broadcast_dims (sa sb : list Z) : result (list Z) :=
  let Na := Z.of_nat (length sa) in
  let Nb := Z.of_nat (length sb) in
  let N := Z.max Na Nb in
  let shapeOut := replicate (Z.to_nat N) 0 in
  while_loop sa sb N (Z.to_nat N) shapeOut.

(** *** The specification's wording *)

(** "result dimension is [d2] if [d1==1], else [d1] if [d2==1], else [d1] if
    [d1==d2]; any other combination is an incompatible-shape domain
    error". *)
Definition broadcast_pair (d1 d2 : Z) : result Z :=
  if d1 =? 1 then Ok d2
  else if d2 =? 1 then Ok d1
  else if d1 =? d2 then Ok d1
  else Raise ValueError.

(** "Missing leading dimensions are treated as size 1". *)
Definition right_align (n : nat) (s : list Z) : list Z :=
  replicate (n - length s)%nat 1 ++ s.

Definition broadcastDims_spec (sa sb : list Z) : result (list Z) :=
  let n := Nat.max (length sa) (length sb) in
  sequence (zip_with broadcast_pair (right_align n sa) (right_align n sb)).

End Broadcast.

(** ** Python values *)

(** A Python [str] is a sequence of Unicode code points. *)
Definition pystr : Type := list Z.

(** The code points of an ASCII literal. *)
Definition str_of (s : string) : pystr :=
  (fun c => Z.of_nat (nat_of_ascii c)) <$> list_ascii_of_string s.

(** A Python [float] by its value: comparisons are exact, no float arithmetic
    occurs in the modelled code. *)
Inductive pyfloat : Type :=
  | FNaN
  | FInf (negative : bool)
  | FFinite (q : Q).

Inductive PyVal : Type :=
  | PyNone
  | PyBool (b : bool)
  | PyInt (z : Z)
  | PyFloat (x : pyfloat)
  | PyStr (s : pystr)
  | PyType (name : string)
  | PyList (l : list PyVal).

(** [np.isscalar]: numbers, booleans and strings are scalars; [None], type
    objects and sequences are not. *)
Definition np_isscalar (v : PyVal) : bool :=
  match v with
  | PyBool _ | PyInt _ | PyFloat _ | PyStr _ => true
  | PyNone | PyType _ | PyList _ => false
  end.

(** [isinstance(v, int)]; [bool] is a subclass of [int]. *)
Definition isinstance_int (v : PyVal) : bool :=
  match v with
  | PyBool _ | PyInt _ => true
  | _ => false
  end.

Definition Z_of_bool (b : bool) : Z := if b then 1 else 0.

(** The numeric value of a number, as an extended rational. *)
Definition numeric_value (v : PyVal) : option pyfloat :=
  match v with
  | PyBool b => Some (FFinite (inject_Z (Z_of_bool b)))
  | PyInt z => Some (FFinite (inject_Z z))
  | PyFloat x => Some x
  | _ => None
  end.

Definition float_eq (x y : pyfloat) : bool :=
  match x, y with
  | FFinite p, FFinite q => Qeq_bool p q
  | FInf a, FInf b => eqb a b
  | _, _ => false
  end.

Definition float_lt (x y : pyfloat) : bool :=
  match x, y with
  | FNaN, _ | _, FNaN => false
  | FInf true, FInf true => false
  | FInf true, _ => true
  | _, FInf true => false
  | FInf false, _ => false
  | FFinite _, FInf false => true
  | FFinite p, FFinite q => negb (Qle_bool q p)
  end.

Fixpoint str_lt (s1 s2 : pystr) : bool :=
  match s1, s2 with
  | _, [] => false
  | [], _ :: _ => true
  | c1 :: s1', c2 :: s2' => (c1 <? c2) || ((c1 =? c2) && str_lt s1' s2')
  end.

(** [v == 0]. *)
Definition py_eq_zero (v : PyVal) : bool :=
  match numeric_value v with
  | Some x => float_eq x (FFinite 0%Q)
  | None => false
  end.

(** [a < b]: numbers compare by value, strings by code points, anything else
    is a [TypeError]. *)
Definition py_lt (a b : PyVal) : result bool :=
  match numeric_value a, numeric_value b with
  | Some x, Some y => Ok (float_lt x y)
  | _, _ =>
      match a, b with
      | PyStr s1, PyStr s2 => Ok (str_lt s1 s2)
      | _, _ => Raise TypeError
      end
  end.

(** The decimal text of an integer, ["{}".format(z)]. *)
Definition str_int (z : Z) : string := NilZero.string_of_int (Z.to_int z).

(** ["{}".format(v)] for instances of [int]. *)
Definition format_int (v : PyVal) : option string :=
  match v with
  | PyInt z => Some (str_int z)
  | PyBool true => Some "True"%string
  | PyBool false => Some "False"%string
  | _ => None
  end.

(** [v + 2] for instances of [int]. *)
Definition int_add (v : PyVal) (k : Z) : PyVal :=
  match v with
  | PyInt z => PyInt (z + k)
  | PyBool b => PyInt (Z_of_bool b + k)
  | _ => v
  end.

(** *** UTF-8, the default of [str.encode] *)

Definition utf8_encode_cp (c : Z) : result (list Z) :=
  if c <? 0 then Raise UnicodeEncodeError
  else if c <? 0x80 then Ok [c]
  else if c <? 0x800 then
    Ok [Z.lor 0xC0 (Z.shiftr c 6); Z.lor 0x80 (Z.land c 0x3F)]
  else if c <? 0x10000 then
    if (0xD800 <=? c) && (c <=? 0xDFFF) then Raise UnicodeEncodeError
    else Ok [Z.lor 0xE0 (Z.shiftr c 12);
             Z.lor 0x80 (Z.land (Z.shiftr c 6) 0x3F);
             Z.lor 0x80 (Z.land c 0x3F)]
  else if c <? 0x110000 then
    Ok [Z.lor 0xF0 (Z.shiftr c 18);
        Z.lor 0x80 (Z.land (Z.shiftr c 12) 0x3F);
        Z.lor 0x80 (Z.land (Z.shiftr c 6) 0x3F);
        Z.lor 0x80 (Z.land c 0x3F)]
  else Raise UnicodeEncodeError.

Definition encode (s : pystr) : result (list Z) :=
  bs ← sequence (utf8_encode_cp <$> s); Ok (concat bs).

(** The bytes of an ASCII header, [header.encode()]. *)
Definition encode_ascii (s : string) : list Z := str_of s.

(** *** Calls with keyword arguments *)

(** A signature lists the parameters with their defaults; binding follows the
    interpreter: positional arguments fill the parameters from the left, a
    keyword must name a parameter that has no value yet, and a parameter left
    without a value takes its default.  Every failure is a [TypeError]. *)
Definition signature : Type := list (string * option PyVal).

Definition has_name (x : string) {A} (l : list (string * A)) : bool :=
  existsb (fun p => String.eqb x (fst p)) l.

Fixpoint lookup_name {A} (x : string) (l : list (string * A)) : option A :=
  match l with
  | [] => None
  | (y, v) :: l' => if String.eqb x y then Some v else lookup_name x l'
  end.

Fixpoint bind_positional (sig : signature) (pos : list PyVal)
    : result (list (string * PyVal)) :=
  match pos, sig with
  | [], _ => Ok []
  | v :: pos', (x, _) :: sig' =>
      b ← bind_positional sig' pos'; Ok ((x, v) :: b)
  | _ :: _, [] => Raise TypeError
  end.

Fixpoint bind_keywords (sig : signature) (bound : list (string * PyVal))
    (kw : list (string * PyVal)) : result (list (string * PyVal)) :=
  match kw with
  | [] => Ok bound
  | (x, v) :: kw' =>
      if negb (has_name x sig) then Raise TypeError
      else if has_name x bound then Raise TypeError
      else bind_keywords sig (bound ++ [(x, v)]) kw'
  end.

Definition bind_defaults (sig : signature) (bound : list (string * PyVal))
    : result (list PyVal) :=
  sequence
    ((fun p : string * option PyVal =>
        match lookup_name (fst p) bound with
        | Some v => Ok v
        | None =>
            match snd p with
            | Some d => Ok d
            | None => Raise TypeError
            end
        end) <$> sig).

Definition bind_call (sig : signature) (pos : list PyVal)
    (kw : list (string * PyVal)) : result (list PyVal) :=
  b ← bind_positional sig pos;
  b' ← bind_keywords sig b kw;
  bind_defaults sig b'.

(** ** Computations that talk to the server *)

(** A computation threads the trace of the requests handed to [generic_msg]
    so far and either returns or raises. *)
Definition M (R A : Type) : Type := list R → result A * list R.

Global Instance M_ret {R} : MRet (M R) := fun _ a t => (Ok a, t).
Global Instance M_bind {R} : MBind (M R) := fun _ _ f m t =>
  match m t with
  | (Ok a, t') => f a t'
  | (Raise e, t') => (Raise e, t')
  end.

Definition raise {R A} (e : exn) : M R A := fun t => (Raise e, t).

Definition lift {R A} (r : result A) : M R A := fun t => (r, t).

(** ** [pdarraycreation.py] *)

Module Creation.

(** A request is the text, or the bytes with [send_bytes=True], given to
    [generic_msg]. *)
Inductive request : Type :=
  | ReqText (msg : string)
  | ReqBytes (msg : list Z).

(** The handle of a server-resident array. *)
Record pdarray : Type := {
  name : string;
  dtype : string;
  size : Z;
  ndim : Z;
  shape : list Z;
  itemsize : Z;
}.

(** What [array] returns: a [pdarray], or [Strings(offsets, bytes)]. *)
Inductive akobject : Type :=
  | AkPdarray (p : pdarray)
  | Strings (offsets values : akobject).

(** A numpy array after conversion: a string array ([dtype.kind == 'U']) or
    an array of another dtype with its [dtype.name] and [itemsize]; [elems]
    are the elements in order, so that [a.size] is their number. *)
Inductive nddata : Type :=
  | NdStr (elems : list pystr)
  | NdNum (dtype_name : string) (nd_itemsize : Z) (elems : list PyVal).

Record ndarray : Type := {
  nd_ndim : nat;
  nd_data : nddata;
}.

(** A rank-1 array of strings. *)
Definition str_ndarray (elems : list pystr) : ndarray :=
  {| nd_ndim := 1; nd_data := NdStr elems |}.

(** The argument of [array]: a [pdarray], an [np.ndarray], or any other
    object. *)
Inductive array_arg : Type :=
  | ArgPdarray (p : pdarray)
  | ArgNdarray (a : ndarray)
  | ArgObject (o : PyVal).

(** The parts of the client that [pdarraycreation.py] imports and that are
    not part of the modelled files. *)
Record Client : Type := {
  (** [arkouda.client]: the transfer limit, and the server's reply to a
      request given the requests before it. *)
  maxTransferBytes : Z;
  server : list request → request → result string;
  (** [arkouda.dtypes]. *)
  DTypes : list string;
  structDtypeCodes : string → option string;
  NUMBER_FORMAT_STRINGS : string → option (PyVal → result string);
  akdtype : PyVal → result string;
  resolve_scalar_dtype : PyVal → string;
  (** [arkouda.pdarrayclass]. *)
  create_pdarray : string → result pdarray;
  (** [np.array(a)]; [None] when the conversion raises. *)
  np_array : PyVal → option ndarray;
  (** [struct.pack(fmt, *a)]. *)
  struct_pack : string → list PyVal → result (list Z);
}.

Section WithClient.

Context (C : Client).

(** [generic_msg]: one round trip. *)
Definition generic_msg (req : request) : M request string :=
  fun t => (server C t req, t ++ [req]).

(** *** [array] *)

(** [np.array([len(elem) for elem in a]) + 1] *)
Definition string_lengths (a : list pystr) : list Z :=
  (fun elem : pystr => Z.of_nat (length elem) + 1) <$> a.

Fixpoint cumsum_from (acc : Z) (l : list Z) : list Z :=
  match l with
  | [] => []
  | x :: l' => (acc + x) :: cumsum_from (acc + x) l'
  end.

(** [np.cumsum] *)
Definition cumsum (l : list Z) : list Z := cumsum_from 0 l.

(** [np.cumsum(lengths) - lengths] *)
Definition string_offsets (lengths : list Z) : list Z :=
  zip_with Z.sub (cumsum lengths) lengths.

(** [offsets[-1] + lengths[-1]] *)
Definition string_nbytes (offsets lengths : list Z) : result Z :=
  match last offsets, last lengths with
  | Some o, Some l => Ok (o + l)
  | _, _ => Raise IndexError
  end.

(** [values[idx] = b] on a numpy array. *)
Definition setitem (values : list Z) (idx b : Z) : result (list Z) :=
  let n := Z.of_nat (length values) in
  if (0 <=? idx) && (idx <? n) then Ok (<[Z.to_nat idx := b]> values)
  else if (- n <=? idx) && (idx <? 0) then
    Ok (<[Z.to_nat (idx + n) := b]> values)
  else Raise IndexError.

(** [for i, b in enumerate(bs): values[o+i] = b], entered at index [i]. *)
Fixpoint fill_segment (values : list Z) (o i : Z) (bs : list Z)
    : result (list Z) :=
  match bs with
  | [] => Ok values
  | b :: bs' =>
      values' ← setitem values (o + i) b;
      fill_segment values' o (i + 1) bs'
  end.

(** [for s, o in zip(a, offsets): ...] *)
Fixpoint fill_values (values : list Z) (rows : list (pystr * Z))
    : result (list Z) :=
  match rows with
  | [] => Ok values
  | (s, o) :: rows' =>
      bs ← encode s;
      values' ← fill_segment values o 0 bs;
      fill_values values' rows'
  end.

(** The numeric path: the dtype check, the transfer guard, and the single
    request that carries the packed elements. *)
Definition array_numeric (dtype_name : string) (item : Z)
    (elems : list PyVal) : M request akobject :=
  if negb (bool_decide (dtype_name ∈ DTypes C)) then raise RuntimeError
  else
    let size := Z.of_nat (length elems) in
    if size * item >? maxTransferBytes C then raise RuntimeError
    else
      match structDtypeCodes C dtype_name with
      | None => raise KeyError
      | Some code =>
          let fmt := (">" ++ str_int size ++ code)%string in
          let header :=
            ("array " ++ dtype_name ++ " " ++ str_int size ++ " ")%string in
          packed ← lift (struct_pack C fmt elems);
          rep_msg ← generic_msg (ReqBytes (encode_ascii header ++ packed));
          p ← lift (create_pdarray C rep_msg);
          mret (AkPdarray p)
      end.

(** The body of [array] once [a] is an [np.ndarray]; [self] stands for
    the two recursive calls. *)
Definition array_ndarray (self : array_arg → M request akobject)
    (a : ndarray) : M request akobject :=
  if negb (nd_ndim a =? 1)%nat then raise RuntimeError
  else
    match nd_data a with
    | NdStr elems =>
        let lengths := string_lengths elems in
        let offsets := string_offsets lengths in
        nbytes ← lift (string_nbytes offsets lengths);
        if nbytes >? maxTransferBytes C then raise RuntimeError
        else
          let values := replicate (Z.to_nat nbytes) 0 in
          values ← lift (fill_values values (zip elems offsets));
          o ← self (ArgNdarray
                {| nd_ndim := 1;
                   nd_data := NdNum "int64" 8 (PyInt <$> offsets) |});
          v ← self (ArgNdarray
                {| nd_ndim := 1;
                   nd_data := NdNum "uint8" 1 (PyInt <$> values) |});
          mret (Strings o v)
    | NdNum dtype_name item elems => array_numeric dtype_name item elems
    end.

Definition array_body (self : array_arg → M request akobject)
    (a : array_arg) : M request akobject :=
  match a with
  | ArgPdarray p => mret (AkPdarray p)
  | ArgNdarray a' => array_ndarray self a'
  | ArgObject o =>
      match np_array C o with
      | Some a' => array_ndarray self a'
      | None => raise TypeError
      end
  end.

(** [array] with the depth of recursion the interpreter still allows. *)
Fixpoint array (depth : nat) (a : array_arg) : M request akobject :=
  match depth with
  | O => raise RecursionError
  | S d => array_body (array d) a
  end.

(** The number of bytes [array] is about to transfer for an array: the
    packed elements on the numeric path, the segment buffer on the string
    path. *)
Definition payload_bytes (a : ndarray) : Z :=
  match nd_data a with
  | NdStr elems => foldr Z.add 0 (string_lengths elems)
  | NdNum _ item elems => Z.of_nat (length elems) * item
  end.

(** The array that [array] works on after [np.array]. *)
Definition converted (a : array_arg) : option ndarray :=
  match a with
  | ArgPdarray _ => None
  | ArgNdarray a' => Some a'
  | ArgObject o => np_array C o
  end.

(** *** [arange] *)

(** The three [if len(args) == ...] blocks; with any other number of
    arguments [start] is unbound when it is first read. *)
Definition arange_args (args : list PyVal)
    : result (PyVal * PyVal * PyVal) :=
  match args with
  | [a0] => Ok (PyInt 0, a0, PyInt 1)
  | [a0; a1] => Ok (a0, a1, PyInt 1)
  | [a0; a1; a2] => Ok (a0, a1, a2)
  | _ => Raise UnboundLocalError
  end.

(** ["arange {} {} {}".format(start, stop, stride)] *)
Definition arange_msg (start stop stride : string) : string :=
  ("arange " ++ start ++ " " ++ stop ++ " " ++ stride)%string.

Definition arange (args : list PyVal) : M request pdarray :=
  '(start, stop, stride) ← lift (arange_args args);
  if negb (np_isscalar start && np_isscalar stop && np_isscalar stride)
  then raise TypeError
  else if py_eq_zero stride then raise ZeroDivisionError
  else if isinstance_int start && isinstance_int stop
          && isinstance_int stride then
    lt0 ← lift (py_lt stride (PyInt 0));
    let stop := if lt0 : bool then int_add stop 2 else stop in
    match format_int start, format_int stop, format_int stride with
    | Some s1, Some s2, Some s3 =>
        repMsg ← generic_msg (ReqText (arange_msg s1 s2 s3));
        lift (create_pdarray C repMsg)
    | _, _, _ => raise TypeError
    end
  else raise TypeError.

(** *** [randint] and [uniform] *)

(** [def randint(low, high, size, dtype=int64)] *)
Definition randint_signature : signature :=
  [("low", None); ("high", None); ("size", None);
   ("dtype", Some (PyType "int64"))]%string.

(** ["randint {} {} {} {}".format(sizestr, dtype.name, lowstr, highstr)] *)
Definition randint_msg (sizestr dtype_name lowstr highstr : string)
    : string :=
  ("randint " ++ sizestr ++ " " ++ dtype_name ++ " " ++ lowstr ++ " "
     ++ highstr)%string.

(** [NUMBER_FORMAT_STRINGS[name].format(v)] *)
Definition number_format (dtype_name : string) (v : PyVal)
    : result string :=
  match NUMBER_FORMAT_STRINGS C dtype_name with
  | Some f => f v
  | None => Raise KeyError
  end.

(** The body of [randint]. *)
Definition randint (low high size dtype : PyVal) : M request pdarray :=
  if negb (np_isscalar low && np_isscalar high && np_isscalar size)
  then raise TypeError
  else if negb (String.eqb (resolve_scalar_dtype C size) "int64")
  then raise TypeError
  else
    neg ← lift (py_lt size (PyInt 0));
    bad ← (if neg : bool then mret true else lift (py_lt high low));
    if bad : bool then raise ValueError
    else
      dtype_name ← lift (akdtype C dtype);
      if negb (bool_decide (dtype_name ∈ DTypes C)) then raise TypeError
      else
        lowstr ← lift (number_format dtype_name low);
        highstr ← lift (number_format dtype_name high);
        sizestr ← lift (number_format "int64" size);
        repMsg ← generic_msg
          (ReqText (randint_msg sizestr dtype_name lowstr highstr));
        lift (create_pdarray C repMsg).

(** A call of [randint] with positional and keyword arguments. *)
Definition call_randint (pos : list PyVal) (kw : list (string * PyVal))
    : M request pdarray :=
  match bind_call randint_signature pos kw with
  | Ok [low; high; size; dtype] => randint low high size dtype
  | Ok _ => raise TypeError
  | Raise e => raise e
  end.

(** [def uniform(size, low=0.0, high=1.0):
       return randint(size, low=low, high=high, dtype='float64')] *)
Definition uniform (size low high : PyVal) : M request pdarray :=
  call_randint [size]
    [("low", low); ("high", high);
     ("dtype", PyStr (str_of "float64"))]%string.

End WithClient.

End Creation.

(** ** [util.invert_permutation] *)

Module Permutation.

(** [util.py] works on server-resident [int64] arrays; an array is modelled
    by its contents and a request by the operation asked of the server. *)
Inductive request : Type :=
  | ReqUnique (pda : list Z)
  | ReqArange (start stop stride : Z)
  | ReqCoargsort (arrays : list (list Z)).

(** Modelled from the spec: [unique] of [arkouda.numpy.pdarraysetops] is not
    under src/; it yields the distinct values of the array ("the count of
    distinct values"), here in ascending order. *)
Definition unique (pda : list Z) : M request (list Z) :=
  fun t => (Ok (merge_sort Z.le (remove_dups pda)), t ++ [ReqUnique pda]).

(** Modelled from the spec: the array the server builds for
    [arange(start, stop)], the integers from [start] (inclusive) to [stop]
    (exclusive), the "identityRange" when [start] is 0. *)
Definition arange (start stop : Z) : M request (list Z) :=
  fun t => (Ok (seqZ start (stop - start)), t ++ [ReqArange start stop 1]).

(** Row [i] of the key columns. *)
Definition key_row (arrays : list (list Z)) (i : nat) : list Z :=
  omap (fun a : list Z => a !! i) arrays.

(** Composite keys are ordered lexicographically. *)
Fixpoint lex_le (k1 k2 : list Z) : bool :=
  match k1, k2 with
  | [], _ => true
  | _ :: _, [] => false
  | x :: k1', y :: k2' => (x <? y) || ((x =? y) && lex_le k1' k2')
  end.

Fixpoint insert_row (r : list Z * nat) (l : list (list Z * nat))
    : list (list Z * nat) :=
  match l with
  | [] => [r]
  | r' :: l' =>
      if lex_le (fst r) (fst r') then r :: l else r' :: insert_row r l'
  end.

(** A stable insertion sort of the rows by their keys: of two rows with the
    same key the one that comes first stays first. *)
Definition sort_rows (l : list (list Z * nat)) : list (list Z * nat) :=
  foldr insert_row [] l.

Definition same_size (arrays : list (list Z)) : bool :=
  match arrays with
  | [] => false
  | a :: rest => forallb (fun b : list Z => (length b =? length a)%nat) rest
  end.

(** Modelled from the spec: [coargsort] of [arkouda.numpy.sorting] is not
    under src/; it is the "joint sort (stable composite-key ordering)" of
    the given columns and returns, for each position of the sorted order,
    the index of the row placed there.  For the pair [(perm, identityRange)]
    that index is the second component of the row. *)
Definition coargsort (arrays : list (list Z)) : M request (list Z) :=
  fun t =>
    (if same_size arrays then
       let n := length (default [] (head arrays)) in
       let rows := (fun i => (key_row arrays i, i)) <$> seq 0 n in
       Ok ((fun r : list Z * nat => Z.of_nat (snd r)) <$> sort_rows rows)
     else Raise ValueError,
     t ++ [ReqCoargsort arrays]).

Definition invert_permutation (perm : list Z) : M request (list Z) :=
  unique_vals ← unique perm;
  if negb (length unique_vals =? length perm)%nat then raise ValueError
  else
    identity ← arange 0 (Z.of_nat (length perm));
    coargsort [perm; identity].

(** [perm] is a permutation of the integers [0, n). *)
Definition is_permutation (perm : list Z) : Prop :=
  perm ≡ₚ seqZ 0 (Z.of_nat (length perm)).

(** The order of the rows, and the leading key of a row. *)
Definition key_le (r1 r2 : list Z * nat) : Prop :=
  lex_le (fst r1) (fst r2) = true.

Definition key1 (r : list Z * nat) : Z := default 0 (head (fst r)).

End Permutation.

(** ** [util.attach] *)

Module Registry.

(** [generic_msg(cmd=..., args={...})] *)
Record request : Type := {
  cmd : string;
  args : list (string * pystr);
}.

(** A decoded JSON value; the fields of an object are the items of the
    resulting [dict]. *)
Inductive json : Type :=
  | JNull
  | JBool (b : bool)
  | JNum (z : Z)
  | JStr (s : pystr)
  | JArr (l : list json)
  | JObj (fields : list (pystr * json)).

Fixpoint lookup_key (key : pystr) (fields : list (pystr * json))
    : option json :=
  match fields with
  | [] => None
  | (k, v) :: fields' =>
      if bool_decide (k = key) then Some v else lookup_key key fields'
  end.

(** [j[key]] for a string key. *)
Definition getitem (j : json) (key : pystr) : result json :=
  match j with
  | JObj fields =>
      match lookup_key key fields with
      | Some v => Ok v
      | None => Raise KeyError
      end
  | _ => Raise TypeError
  end.

(** The constructor each branch of [attach] calls. *)
Inductive kind : Type :=
  | KPdarray
  | KStrings
  | KDatetime
  | KTimedelta
  | KIPv4
  | KSegArray
  | KDataFrame
  | KGroupBy
  | KCategorical
  | KIndex
  | KSeries
  | KBitVector.

(** The object-type tags the handle classes declare ([pdarray.objType],
    [Datetime.special_objType], ...); the classes are not part of the
    modelled files. *)
Record ObjTypes : Type := {
  pdarray_objType : pystr;
  Strings_objType : pystr;
  Datetime_special_objType : pystr;
  Timedelta_special_objType : pystr;
  IPv4_special_objType : pystr;
  SegArray_objType : pystr;
  DataFrame_objType : pystr;
  GroupBy_objType : pystr;
  Categorical_objType : pystr;
  Index_objType : pystr;
  MultiIndex_objType : pystr;
  Series_objType : pystr;
  BitVector_special_objType : pystr;
}.

(** What [attach] relies on from outside the modelled files: the server's
    reply, [json.loads], [str.lower], the tags, and the constructors
    ([create_pdarray], [from_return_msg], ...) applied to
    [rep_msg["create"]]. *)
Record Client (handle : Type) : Type := {
  server : list request → request → result string;
  json_loads : string → result json;
  str_lower : pystr → pystr;
  objTypes : ObjTypes;
  construct : kind → json → result handle;
}.
Arguments server {handle}.
Arguments json_loads {handle}.
Arguments str_lower {handle}.
Arguments objTypes {handle}.
Arguments construct {handle}.

(** An attached object with the [registered_name] that [attach] sets. *)
Record attached (handle : Type) : Type := {
  object : handle;
  registered_name : pystr;
}.
Arguments object {handle}.
Arguments registered_name {handle}.

Section WithClient.

Context {handle : Type} (C : Client handle).

Definition generic_msg (req : request) : M request string :=
  fun t => (server C t req, t ++ [req]).

(** The branches of the [if]/[elif] chain in source order: the tag each
    one compares with and the constructor it calls.  [Index] and
    [MultiIndex] share a branch through [or]. *)
Definition branches : list (pystr * kind) :=
  let T := objTypes C in
  [(pdarray_objType T, KPdarray);
   (Strings_objType T, KStrings);
   (Datetime_special_objType T, KDatetime);
   (Timedelta_special_objType T, KTimedelta);
   (IPv4_special_objType T, KIPv4);
   (SegArray_objType T, KSegArray);
   (DataFrame_objType T, KDataFrame);
   (GroupBy_objType T, KGroupBy);
   (Categorical_objType T, KCategorical);
   (Index_objType T, KIndex);
   (MultiIndex_objType T, KIndex);
   (Series_objType T, KSeries);
   (BitVector_special_objType T, KBitVector)].

(** [v.lower()] *)
Definition lower (v : json) : result pystr :=
  match v with
  | JStr s => Ok (str_lower C s)
  | _ => Raise AttributeError
  end.

(** [rep_msg["objType"].lower() == tag.lower()] *)
Definition tag_matches (rep_msg : json) (tag : pystr) : result bool :=
  v ← getitem rep_msg (str_of "objType");
  l ← lower v;
  Ok (bool_decide (l = str_lower C tag)).

(** The chain: the first branch whose test holds builds [rtn_obj] from
    [rep_msg["create"]]; with no such branch [rtn_obj] stays [None]. *)
Fixpoint dispatch (rep_msg : json) (bs : list (pystr * kind))
    : result (option handle) :=
  match bs with
  | [] => Ok None
  | (tag, k) :: bs' =>
      b ← tag_matches rep_msg tag;
      if b : bool then
        c ← getitem rep_msg (str_of "create");
        h ← construct C k c;
        Ok (Some h)
      else dispatch rep_msg bs'
  end.

Definition attach (name : pystr) : M request (option (attached handle)) :=
  reply ← generic_msg {| cmd := "attach"; args := [("name"%string, name)] |};
  rep_msg ← lift (json_loads C reply);
  rtn_obj ← lift (dispatch rep_msg branches);
  mret ((fun h => {| object := h; registered_name := name |}) <$> rtn_obj).

(** The tags [attach] knows. *)
Definition known_tags : list pystr := fst <$> branches.

End WithClient.

End Registry.

(** ** Test doubles

    Concrete clients on which the definitions above evaluate: the tables of
    [arkouda.dtypes] as the client ships them, a server that names each new
    array after the number of requests seen, and big-endian packing. *)

Module TestClient.

Import Creation.

(** The [n] low bytes of [z], most significant first. *)
Fixpoint big_endian (n : nat) (z : Z) : list Z :=
  match n with
  | O => []
  | S n' => Z.land (Z.shiftr z (8 * Z.of_nat n')) 0xFF :: big_endian n' z
  end.

Definition last_char (s : string) : string :=
  match last (list_ascii_of_string s) with
  | Some c => String c EmptyString
  | None => EmptyString
  end.

(** [struct.pack] for the codes ["q"] and ["B"] of integer elements. *)
Definition pack_elem (code : string) (v : PyVal) : result (list Z) :=
  match v with
  | PyInt z =>
      if String.eqb code "q" then
        if (- 2 ^ 63 <=? z) && (z <? 2 ^ 63) then Ok (big_endian 8 z)
        else Raise ValueError
      else if String.eqb code "B" then
        if (0 <=? z) && (z <? 256) then Ok [z] else Raise ValueError
      else Raise ValueError
  | _ => Raise TypeError
  end.

Definition pack (fmt : string) (elems : list PyVal) : result (list Z) :=
  bs ← sequence (pack_elem (last_char fmt) <$> elems); Ok (concat bs).

Definition format_scalar (v : PyVal) : result string :=
  match format_int v with
  | Some s => Ok s
  | None => Raise ValueError
  end.

Definition dtype_name_of (v : PyVal) : result string :=
  match v with
  | PyType n => Ok n
  | PyStr s =>
      if bool_decide (s = str_of "float64") then Ok "float64"%string
      else if bool_decide (s = str_of "int64") then Ok "int64"%string
      else Raise TypeError
  | _ => Raise TypeError
  end.

Definition scalar_dtype (v : PyVal) : string :=
  match v with
  | PyBool _ => "bool"
  | PyInt _ => "int64"
  | PyFloat _ => "float64"
  | PyStr _ => "str"
  | _ => "object"
  end.

Definition client (limit : Z) : Client :=
  {| maxTransferBytes := limit;
     server := fun t _ => Ok ("id_" ++ str_int (Z.of_nat (length t)))%string;
     DTypes := ["bool"; "int64"; "float64"; "uint8"; "str"]%string;
     structDtypeCodes :=
       fun n => lookup_name n
         [("int64", "q"); ("float64", "d"); ("bool", "?");
          ("uint8", "B")]%string;
     NUMBER_FORMAT_STRINGS :=
       fun n =>
         if has_name n
              [("bool", tt); ("int64", tt); ("float64", tt);
               ("uint8", tt)]%string
         then Some format_scalar else None;
     akdtype := dtype_name_of;
     resolve_scalar_dtype := scalar_dtype;
     create_pdarray :=
       fun reply =>
         Ok {| name := reply; dtype := "int64"; size := 0; ndim := 1;
               shape := [0]; itemsize := 8 |};
     np_array := fun _ => None;
     struct_pack := pack |}.

(** ASCII lower-casing of code points. *)
Definition ascii_lower (s : pystr) : pystr :=
  (fun c => if (65 <=? c) && (c <=? 90) then c + 32 else c) <$> s.

Definition objTypes : Registry.ObjTypes :=
  {| Registry.pdarray_objType := str_of "pdarray";
     Registry.Strings_objType := str_of "Strings";
     Registry.Datetime_special_objType := str_of "Datetime";
     Registry.Timedelta_special_objType := str_of "Timedelta";
     Registry.IPv4_special_objType := str_of "IPv4";
     Registry.SegArray_objType := str_of "SegArray";
     Registry.DataFrame_objType := str_of "DataFrame";
     Registry.GroupBy_objType := str_of "GroupBy";
     Registry.Categorical_objType := str_of "Categorical";
     Registry.Index_objType := str_of "Index";
     Registry.MultiIndex_objType := str_of "MultiIndex";
     Registry.Series_objType := str_of "Series";
     Registry.BitVector_special_objType := str_of "BitVector" |}.

(** A registry client whose server answers every request with text that
    decodes to [rep_msg]; a handle records which constructor built it and
    from what. *)
Definition registry (rep_msg : Registry.json)
    : Registry.Client (Registry.kind * Registry.json) :=
  {| Registry.server := fun _ _ => Ok "reply"%string;
     Registry.json_loads := fun _ => Ok rep_msg;
     Registry.str_lower := ascii_lower;
     Registry.objTypes := objTypes;
     Registry.construct := fun k c => Ok (k, c) |}.

End TestClient.

(** ** [util._infer_shape_from_size] and [util._generate_test_shape] *)

Module Shapes.

(** A size argument: one integer, or a tuple of dimensions. *)
Inductive size_arg : Type :=
  | SizeInt (n : Z)
  | SizeTuple (dims : list Z).

(** [full_size = 1; for s in shape: full_size *= s], also [math.prod]. *)
Definition maprod (shape : list Z) : Z := fold_left Z.mul shape 1.

(** Returns [(shape, ndim, full_size)]. *)
Definition _infer_shape_from_size (size : size_arg) : size_arg * Z * Z :=
  match size with
  | SizeTuple shape =>
      (SizeTuple shape, Z.of_nat (length shape), maprod shape)
  | SizeInt full_size => (SizeInt full_size, 1, full_size)
  end.

(** Returns [(shape, local_size)].  The rank is a positive integer: with a
    rank below 1 the exponent [rank - 1] is negative and the interpreter
    leaves integer arithmetic. *)
Definition _generate_test_shape (rank : positive) (size : Z)
    : list Z * Z :=
  let last_dim := Z.max 2 (size / 2 ^ (Z.pos rank - 1)) in
  let shape := replicate (Pos.to_nat rank - 1) 2 ++ [last_dim] in
  (shape, maprod shape).

End Shapes.

(** ** [util.generic_concat] *)

Module Concat.

(** An item is a [list], or an object of some class. *)
Inductive item (O : Type) : Type :=
  | ItemList (l : list PyVal)
  | ItemObject (cls : string) (o : O).
Arguments ItemList {O} l.
Arguments ItemObject {O} cls o.

(** [type(x)]: [list], or a class by its name. *)
Inductive pytype : Type :=
  | TList
  | TClass (cls : string).

Global Instance pytype_eq_dec : EqDecision pytype.
Proof. solve_decision. Defined.

Definition type_of {O} (x : item O) : pytype :=
  match x with
  | ItemList _ => TList
  | ItemObject cls _ => TClass cls
  end.

(** What [generic_concat] calls outside the modelled files: the [concat]
    method of a class, when the class has one, and [concatenate] of
    [arkouda.numpy.pdarraysetops]. *)
Record Classes (O : Type) : Type := {
  class_concat : string → option (list (item O) → bool → result (item O));
  pdarrayconcatenate : list (item O) → bool → result (item O);
}.
Arguments class_concat {O}.
Arguments pdarrayconcatenate {O}.

(** The elements an item contributes to
    [[x for lst in items for x in lst]]. *)
Definition list_of {O} (x : item O) : list PyVal :=
  match x with
  | ItemList l => l
  | ItemObject _ _ => []
  end.

Definition generic_concat {O} (K : Classes O) (items : list (item O))
    (ordered : bool) : result (item O) :=
  let types := remove_dups (type_of <$> items) in
  match types with
  | [TList] => Ok (ItemList (concat (list_of <$> items)))
  | [TClass cls] =>
      match class_concat K cls with
      | Some concat_method => concat_method items ordered
      | None => pdarrayconcatenate K items ordered
      end
  | _ => Raise TypeError
  end.

End Concat.

(** ** [util.sparse_sum_help] *)

Module SparseSum.

(** The request [generic_msg(cmd="sparseSumHelp", args={...})]. *)
Record request : Type := {
  cmd : string;
  idx1 : Creation.pdarray;
  idx2 : Creation.pdarray;
  val1 : Creation.pdarray;
  val2 : Creation.pdarray;
  merge : bool;
  percent_transfer_limit : Z;
}.

Record Client : Type := {
  server : list request → request → result string;
  create_pdarray : string → result Creation.pdarray;
}.

Definition plus : ascii := "+"%char.

(** [s.split("+", maxsplit=1)]: the text before the first ["+"] and the text
    after it, or [None] when [s] has no ["+"] and the split has one part. *)
Fixpoint split_plus (s : string) : option (string * string) :=
  match s with
  | EmptyString => None
  | String c s' =>
      if Ascii.eqb c plus then Some (EmptyString, s')
      else
        match split_plus s' with
        | Some (a, b) => Some (String c a, b)
        | None => None
        end
  end.

Definition generic_msg (C : Client) (req : request) : M request string :=
  fun t => (server C t req, t ++ [req]).

Definition sparse_sum_help (C : Client)
    (idx1 idx2 val1 val2 : Creation.pdarray) (merge : bool)
    (percent_transfer_limit : Z)
    : M request (Creation.pdarray * Creation.pdarray) :=
  repMsg ← generic_msg C
    {| cmd := "sparseSumHelp"; idx1 := idx1; idx2 := idx2; val1 := val1;
       val2 := val2; merge := merge;
       percent_transfer_limit := percent_transfer_limit |};
  match split_plus repMsg with
  | Some (inds, vals) =>
      i ← lift (create_pdarray C inds);
      v ← lift (create_pdarray C vals);
      mret (i, v)
  | None => raise ValueError
  end.

End SparseSum.

(** ** [util.unregister], [util.unregister_all] and [util.attach_all] *)

Module Batch.

Import Registry.

Section WithClient.

Context {handle : Type} (C : Client handle).

Definition unregister_request (name : pystr) : request :=
  {| cmd := "unregister"; args := [("name"%string, name)] |}.

Definition attach_request (name : pystr) : request :=
  {| cmd := "attach"; args := [("name"%string, name)] |}.

Definition unregister (name : pystr) : M request string :=
  generic_msg C (unregister_request name).

(** [for n in names: unregister(n)] *)
Fixpoint unregister_all (names : list pystr) : M request unit :=
  match names with
  | [] => mret tt
  | n :: names' => _ ← unregister n; unregister_all names'
  end.

(** [d[k] = v] on a [dict], kept as its items in insertion order: a key that
    is present keeps its place and takes the new value. *)
Fixpoint dict_set {V} (k : pystr) (v : V) (d : list (pystr * V))
    : list (pystr * V) :=
  match d with
  | [] => [(k, v)]
  | (k', v') :: d' =>
      if bool_decide (k' = k) then (k', v) :: d'
      else (k', v') :: dict_set k v d'
  end.

(** [{n: attach(n) for n in names}], with the items gathered so far. *)
Fixpoint attach_all_from (d : list (pystr * option (attached handle)))
    (names : list pystr)
    : M request (list (pystr * option (attached handle))) :=
  match names with
  | [] => mret d
  | n :: names' =>
      v ← attach C n;
      attach_all_from (dict_set n v d) names'
  end.

Definition attach_all (names : list pystr)
    : M request (list (pystr * option (attached handle))) :=
  attach_all_from [] names.

End WithClient.

End Batch.

(** ** [pdarraycreation.standard_normal] *)

Module Normal.

Import Creation.

(** ["randomNormal {}".format(...)] *)
Definition randomNormal_msg (sizestr : string) : string :=
  ("randomNormal " ++ sizestr)%string.

Definition standard_normal (C : Client) (size : PyVal) : M request pdarray :=
  neg ← lift (py_lt size (PyInt 0));
  if neg : bool then raise ValueError
  else
    sizestr ← lift (number_format C "int64" size);
    repMsg ← generic_msg C (ReqText (randomNormal_msg sizestr));
    lift (create_pdarray C repMsg).

End Normal.

(** ** Sample replies *)

Module Samples.

Import Registry.

(** A reply whose tag no handle kind declares. *)
Definition unknown_reply : json :=
  JObj [(str_of "objType", JStr (str_of "Histogram"));
        (str_of "create", JStr (str_of "created id_7"))].

(** A reply that spells the tag of [pdarray] in upper case. *)
Definition upper_case_reply : json :=
  JObj [(str_of "objType", JStr (str_of "PDARRAY"));
        (str_of "create", JStr (str_of "created id_7 int64 3 1 (3,) 8"))].

(** A reply without an ["objType"] entry. *)
Definition untagged_reply : json :=
  JObj [(str_of "create", JStr (str_of "created id_7"))].

(** A handle named after its descriptor, and a client for
    [sparse_sum_help] whose server always answers [reply]. *)
Definition handle_of (descriptor : string) : Creation.pdarray :=
  {| Creation.name := descriptor; Creation.dtype := "int64";
     Creation.size := 0; Creation.ndim := 1; Creation.shape := [0];
     Creation.itemsize := 8 |}.

Definition sparse_client (reply : string) : SparseSum.Client :=
  {| SparseSum.server := fun _ _ => Ok reply;
     SparseSum.create_pdarray := fun descriptor => Ok (handle_of descriptor) |}.

End Samples.

(** ** The outcome of the joint sort in [invert_permutation] *)

Module Inverse.

Import Permutation.

(** What [coargsort] returns for [(perm, identity)]: the indices of the
    rows in sorted order. *)
Definition sorted_indices (perm : list Z) : list Z :=
  let identity := seqZ 0 (Z.of_nat (length perm)) in
  (fun r : list Z * nat => Z.of_nat (snd r))
    <$> sort_rows
          ((fun i => (key_row [perm; identity] i, i)) <$> seq 0 (length perm)).

End Inverse.

(** * Properties *)

(** ** Results *)

Lemma sequence_snoc {A} (rs : list (result A)) (r : result A) :
  sequence (rs ++ [r]) =
  match sequence rs with
  | Ok xs => x ← r; Ok (xs ++ [x])
  | Raise e => Raise e
  end.
Proof.
  induction rs as [|a rs IH]; simpl.
  - by destruct r.
  - destruct a as [x|e]; simpl; [|done].
    rewrite IH. destruct (sequence rs); simpl; [|done]. by destruct r.
Qed.

Lemma sequence_raise {A} (rs : list (result A)) (e0 e : exn) :
  Forall (fun r => ∀ e', r = Raise e' → e' = e0) rs →
  sequence rs = Raise e → e = e0.
Proof.
  induction 1 as [|r rs Hr _ IH]; simpl; [done|].
  destruct r as [x|e']; simpl.
  - destruct (sequence rs); simpl; [done|]. intros [= <-]. by apply IH.
  - intros [= <-]. by apply Hr.
Qed.

Lemma sequence_length {A} (rs : list (result A)) (xs : list A) :
  sequence rs = Ok xs → length xs = length rs.
Proof.
  revert xs. induction rs as [|r rs IH]; simpl; intros xs.
  - by intros [= <-].
  - destruct r; simpl; [|done]. destruct (sequence rs); simpl; [|done].
    intros [= <-]. simpl. f_equal. by apply IH.
Qed.

(** ** Broadcasting *)

Section BroadcastFacts.

Import Broadcast.

Lemma length_right_align n s :
  (length s ≤ n)%nat → length (right_align n s) = n.
Proof.
  intros. unfold right_align. rewrite length_app, length_replicate. lia.
Qed.

(** Reading [s[n]] at the shifted index is reading the right-aligned
    shape. *)
Lemma dim_or_one_right_align (s : list Z) (n i : nat) :
  (length s ≤ n)%nat → (i < n)%nat →
  ∃ d, right_align n s !! i = Some d ∧
       dim_or_one s (Z.of_nat (length s) - Z.of_nat n + Z.of_nat i) = Ok d.
Proof.
  intros Hs Hi. unfold dim_or_one, right_align.
  destruct (decide (i < n - length s)%nat) as [Hlt|Hge].
  - exists 1. split.
    + rewrite lookup_app_l by (rewrite length_replicate; lia).
      by apply lookup_replicate_2.
    + case_match eqn:Hn; [apply Z.leb_le in Hn; lia|done].
  - assert (is_Some (s !! (i - (n - length s))%nat)) as [d Hd].
    { apply lookup_lt_is_Some. lia. }
    exists d. split.
    + rewrite lookup_app_r by (rewrite length_replicate; lia).
      by rewrite length_replicate.
    + case_match eqn:Hn; [|apply Z.leb_gt in Hn; lia].
      replace (Z.to_nat _) with (i - (n - length s))%nat by lia.
      by rewrite Hd.
Qed.

Lemma broadcast_pair_raise d1 d2 e :
  broadcast_pair d1 d2 = Raise e → e = ValueError.
Proof. unfold broadcast_pair. repeat case_match; congruence. Qed.

Section Loop.

Context (sa sb : list Z).
Let n : nat := Nat.max (length sa) (length sb).
Let rs : list (result Z) :=
  zip_with broadcast_pair (right_align n sa) (right_align n sb).

Lemma length_rs : length rs = n.
Proof.
  unfold rs. rewrite length_zip_with, !length_right_align by lia. lia.
Qed.

Lemma rs_raise : Forall (fun r => ∀ e, r = Raise e → e = ValueError) rs.
Proof.
  apply Forall_lookup. intros i r Hr e ->.
  unfold rs in Hr. apply lookup_zip_with_Some in Hr as (d1 & d2 & ? & _).
  by eapply broadcast_pair_raise.
Qed.

(** One iteration combines the aligned pair and stores the outcome. *)
Lemma loop_body_pair (i : nat) (r : result Z) (shapeOut : list Z) :
  rs !! i = Some r →
  loop_body sa sb (Z.of_nat n) i shapeOut =
  (d ← r; Ok (<[i := d]> shapeOut)).
Proof.
  intros Hr. assert (i < n)%nat as Hi.
  { rewrite <- length_rs. by eapply lookup_lt_Some. }
  destruct (dim_or_one_right_align sa n i) as (d1 & Hd1 & E1); [lia..|].
  destruct (dim_or_one_right_align sb n i) as (d2 & Hd2 & E2); [lia..|].
  unfold loop_body. rewrite E1, E2. simpl.
  unfold rs in Hr. rewrite lookup_zip_with, Hd1, Hd2 in Hr.
  simpl in Hr. injection Hr as <-.
  unfold broadcast_pair. by repeat case_match.
Qed.

(** After the iterations at [k - 1], ..., [0] the first [k] slots hold the
    combined dimensions. *)
Lemma while_loop_take (k : nat) (shapeOut : list Z) :
  (k ≤ n)%nat → length shapeOut = n →
  while_loop sa sb (Z.of_nat n) k shapeOut =
  match sequence (take k rs) with
  | Ok pre => Ok (pre ++ drop k shapeOut)
  | Raise _ => Raise ValueError
  end.
Proof.
  revert shapeOut. induction k as [|i IH]; intros shapeOut Hk Hlen.
  - simpl. by rewrite drop_0.
  - assert (is_Some (rs !! i)) as [r Hr].
    { apply lookup_lt_is_Some. rewrite length_rs. lia. }
    simpl. rewrite (loop_body_pair i r) by done.
    rewrite (take_S_r _ _ _ Hr), sequence_snoc.
    destruct r as [d|e]; simpl.
    + rewrite IH by (rewrite ?length_insert; lia).
      destruct (sequence (take i rs)) as [pre|]; simpl; [|done].
      rewrite <- app_assoc. simpl. do 2 f_equal.
      rewrite drop_insert_ge, Nat.sub_diag by lia.
      rewrite (drop_S shapeOut (shapeOut !!! i) i); [done|].
      apply list_lookup_lookup_total_lt. lia.
    + assert (e = ValueError) as ->.
      { eapply (proj1 (Forall_lookup _ _) rs_raise); done. }
      by destruct (sequence (take i rs)).
Qed.

End Loop.

(** The loop computes what the specification describes. *)
Lemma broadcast_dims_unfold (sa sb : list Z) :
  broadcast_dims sa sb = broadcastDims_spec sa sb.
Proof.
  unfold broadcast_dims, broadcastDims_spec.
  set (n := Nat.max (length sa) (length sb)).
  replace (Z.max _ _) with (Z.of_nat n) by lia.
  rewrite Nat2Z.id, while_loop_take by (by rewrite ?length_replicate).
  fold n. set (rs := zip_with _ _ _).
  assert (length rs = n) as Hrs by apply length_rs.
  rewrite <- Hrs at 1. rewrite firstn_all.
  destruct (sequence rs) as [pre|e] eqn:E.
  - rewrite drop_ge, app_nil_r; [done|]. rewrite length_replicate. lia.
  - f_equal. symmetry. eapply sequence_raise; [apply rs_raise|exact E].
Qed.

Lemma broadcast_pair_comm d1 d2 : broadcast_pair d1 d2 = broadcast_pair d2 d1.
Proof.
  unfold broadcast_pair.
  repeat case_match; try done; f_equal; lia.
Qed.

End BroadcastFacts.

Lemma zip_with_comm {A B} (f : A → A → B) (l k : list A) :
  (∀ x y, f x y = f y x) → zip_with f l k = zip_with f k l.
Proof.
  intros Hf. revert k. induction l as [|x l IH]; intros [|y k]; simpl; try done.
  by rewrite Hf, IH.
Qed.

(** C1. [broadcast_dims] right-aligns the two shapes, reads a missing leading
    dimension as 1, and combines each aligned pair [(d1, d2)] into [d2] if
    [d1 == 1], else [d1] if [d2 == 1], else [d1] if [d1 == d2], raising
    [ValueError] for any other pair: it agrees with the specification's
    definition on all shapes.  In particular [(5,1)] with [(1,3)] gives
    [(5,3)], [(4,)] with [(3,1)] gives [(3,4)], and [(2,3)] with [(2,4)]
    raises. *)
Theorem broadcast_dims_follows_spec :
  (∀ sa sb : list Z,
     Broadcast.broadcast_dims sa sb = Broadcast.broadcastDims_spec sa sb) ∧
  Broadcast.broadcast_dims [5; 1] [1; 3] = Ok [5; 3] ∧
  Broadcast.broadcast_dims [4] [3; 1] = Ok [3; 4] ∧
  Broadcast.broadcast_dims [2; 3] [2; 4] = Raise ValueError.
Proof.
  split; [apply broadcast_dims_unfold|].
  repeat split; reflexivity.
Qed.

(** C10. [broadcast_dims] is commutative: swapping the two shapes gives the
    same outcome, the same shape when it returns and [ValueError] in exactly
    the same cases. *)
Theorem broadcast_dims_comm (sa sb : list Z) :
  Broadcast.broadcast_dims sa sb = Broadcast.broadcast_dims sb sa.
Proof.
  rewrite !broadcast_dims_unfold. unfold Broadcast.broadcastDims_spec.
  rewrite (Nat.max_comm (length sb)).
  f_equal. apply zip_with_comm, broadcast_pair_comm.
Qed.

(** ** Python values *)

Lemma py_eq_zero_int (z : Z) : py_eq_zero (PyInt z) = (z =? 0).
Proof.
  unfold py_eq_zero. simpl. unfold Qeq_bool. simpl.
  rewrite Z.mul_1_r. by destruct z.
Qed.

Lemma float_lt_int (a b : Z) :
  float_lt (FFinite (inject_Z a)) (FFinite (inject_Z b)) = (a <? b).
Proof.
  unfold float_lt, Qle_bool. simpl. by rewrite !Z.mul_1_r, Z.ltb_antisym.
Qed.

Lemma py_lt_int (a b : Z) : py_lt (PyInt a) (PyInt b) = Ok (a <? b).
Proof. unfold py_lt, numeric_value. by rewrite float_lt_int. Qed.

Lemma py_eq_zero_scalar (v : PyVal) :
  py_eq_zero v = true → np_isscalar v = true.
Proof. by destruct v. Qed.

Local Arguments float_lt : simpl never.
Local Arguments py_eq_zero : simpl never.

(** ** [arange] *)

Section ArangeFacts.

Import Creation.

Context (C : Client).

(** With integer arguments and a stride other than 0, [arange] sends one
    request; its stop bound is [stop + 2] when the stride is negative. *)
Lemma arange_ints_trace (start stop stride : Z) (t : list request) :
  snd (arange C [PyInt start; PyInt stop; PyInt stride] t) =
  t ++ (if stride =? 0 then []
        else [ReqText (arange_msg (str_int start)
                         (str_int (if stride <? 0 then stop + 2 else stop))
                         (str_int stride))]).
Proof.
  unfold arange, mbind, M_bind, lift. simpl.
  rewrite py_eq_zero_int. destruct (stride =? 0) eqn:E0; simpl.
  - by rewrite app_nil_r.
  - rewrite float_lt_int. unfold generic_msg.
    destruct (stride <? 0); simpl; by destruct (server C t _).
Qed.

End ArangeFacts.

(** C7. For integer [start], [stop] and [stride], the request [arange] sends
    carries [stop + 2] as its stop bound when the stride is negative and
    [stop] itself when it is positive, with [start] and [stride] unchanged (a
    stride of 0 sends nothing); the one- and two-argument forms, whose stride
    is 1, pass [stop] unmodified as well. *)
Theorem arange_negative_stride_stop_plus_two (C : Creation.Client)
    (start stop stride : Z) (t : list Creation.request) :
  snd (Creation.arange C [PyInt start; PyInt stop; PyInt stride] t) =
    t ++ (if stride =? 0 then []
          else [Creation.ReqText
                  (Creation.arange_msg (str_int start)
                     (str_int (if stride <? 0 then stop + 2 else stop))
                     (str_int stride))]) ∧
  snd (Creation.arange C [PyInt start; PyInt stop] t) =
    t ++ [Creation.ReqText
            (Creation.arange_msg (str_int start) (str_int stop) "1")] ∧
  snd (Creation.arange C [PyInt stop] t) =
    t ++ [Creation.ReqText (Creation.arange_msg "0" (str_int stop) "1")].
Proof.
  split; [apply arange_ints_trace|].
  split.
  - pose proof (arange_ints_trace C start stop 1 t) as H.
    simpl in H. exact H.
  - pose proof (arange_ints_trace C 0 stop 1 t) as H.
    simpl in H. exact H.
Qed.

(** C8, the claim as stated fails: with a stride of 0 and a [start] that is
    not a scalar, the scalar check comes first and [arange] raises
    [TypeError], not [ZeroDivisionError]. *)
Lemma arange_zero_stride_list_start :
  Creation.arange (TestClient.client (2 ^ 30))
    [PyList [PyInt 1]; PyInt 5; PyInt 0] [] = (Raise TypeError, []) ∧
  ¬ (∀ (C : Creation.Client) (start stop : PyVal) (t : list Creation.request),
       Creation.arange C [start; stop; PyInt 0] t
       = (Raise ZeroDivisionError, t)).
Proof.
  split; [reflexivity|].
  intros H.
  specialize (H (TestClient.client (2 ^ 30)) (PyList [PyInt 1]) (PyInt 5) []).
  discriminate H.
Qed.

(** C8, amended. When [start] and [stop] are scalars and the stride equals 0,
    [arange] raises [ZeroDivisionError] and no request is sent, whatever the
    values of [start] and [stop]. *)
Theorem arange_zero_stride (C : Creation.Client) (start stop stride : PyVal)
    (t : list Creation.request) :
  np_isscalar start = true → np_isscalar stop = true →
  py_eq_zero stride = true →
  Creation.arange C [start; stop; stride] t = (Raise ZeroDivisionError, t).
Proof.
  intros H1 H2 H0. unfold Creation.arange, mbind, M_bind, lift. simpl.
  by rewrite H1, H2, (py_eq_zero_scalar _ H0), H0.
Qed.

Lemma arange_zero_stride_witness :
  Creation.arange (TestClient.client (2 ^ 30))
    [PyStr (str_of "a"); PyFloat (FFinite 2.5%Q); PyBool false] []
  = (Raise ZeroDivisionError, []).
Proof. apply arange_zero_stride; reflexivity. Defined.

(** ** [uniform] and [randint] *)

(** C4. [uniform] passes [size] to [randint] positionally, where it lands on
    the parameter [low], and passes [low] again by keyword: the call is
    rejected with [TypeError] for every [size], [low] and [high], before the
    body of [randint] runs and without a request.  [randint] itself, given
    the same values in its own order with the floating dtype, sends its
    request and returns. *)
Theorem uniform_rejected_by_randint_signature :
  (∀ (C : Creation.Client) (size low high : PyVal)
     (t : list Creation.request),
     Creation.uniform C size low high t = (Raise TypeError, t)) ∧
  (∃ p,
     Creation.randint (TestClient.client (2 ^ 30))
       (PyInt 0) (PyInt 1) (PyInt 3) (PyStr (str_of "float64")) []
     = (Ok p, [Creation.ReqText "randint 3 float64 0 1"])).
Proof.
  split.
  - reflexivity.
  - eexists. vm_compute. reflexivity.
Qed.

(** ** [array] *)

Section ArrayFacts.

Import Creation.

Lemma last_cumsum_from (acc : Z) (l : list Z) :
  l ≠ [] → last (cumsum_from acc l) = Some (acc + foldr Z.add 0 l).
Proof.
  revert acc. induction l as [|x l IH]; intros acc Hl; [done|].
  destruct l as [|y l].
  - simpl. f_equal. lia.
  - change (last (cumsum_from (acc + x) (y :: l))
            = Some (acc + (x + foldr Z.add 0 (y :: l)))).
    rewrite IH by done. f_equal. lia.
Qed.

Lemma length_cumsum_from (acc : Z) (l : list Z) :
  length (cumsum_from acc l) = length l.
Proof. revert acc. induction l; intros; simpl; [done|]. by f_equal. Qed.

Lemma last_zip_with {A B D} (f : A → B → D) (l : list A) (k : list B) x y :
  length l = length k → last l = Some x → last k = Some y →
  last (zip_with f l k) = Some (f x y).
Proof.
  revert k. induction l as [|a l IH]; intros [|b k] Hlen Hx Hy; try done.
  destruct l as [|a' l], k as [|b' k]; try done.
  - simpl in *. congruence.
  - change (last (zip_with f (a' :: l) (b' :: k)) = Some (f x y)).
    apply IH; [simpl in *; lia|done..].
Qed.

(** For a non-empty array, [offsets[-1] + lengths[-1]] is the sum of the
    segment lengths. *)
Lemma string_nbytes_total (lengths : list Z) :
  lengths ≠ [] →
  string_nbytes (string_offsets lengths) lengths
  = Ok (foldr Z.add 0 lengths).
Proof.
  intros Hl. unfold string_nbytes, string_offsets, cumsum.
  destruct (last lengths) as [x|] eqn:Hlast.
  2: { by apply last_None in Hlast. }
  rewrite (last_zip_with Z.sub _ _ (0 + foldr Z.add 0 lengths) x);
    [|apply length_cumsum_from|by apply last_cumsum_from|done].
  f_equal. lia.
Qed.

(** The numeric path raises when the elements exceed the limit. *)
Lemma array_numeric_guard (C : Client) dtype_name item elems t :
  Z.of_nat (length elems) * item > maxTransferBytes C →
  array_numeric C dtype_name item elems t = (Raise RuntimeError, t).
Proof.
  intros H. unfold array_numeric.
  destruct (negb _); [done|].
  by rewrite (proj2 (Z.gtb_gt _ _)) by lia.
Qed.

(** An array whose payload exceeds the limit is rejected before any
    request. *)
Lemma array_ndarray_guard (C : Client) self (a : ndarray) t :
  payload_bytes a > maxTransferBytes C →
  ∃ e, array_ndarray C self a t = (Raise e, t) ∧
       (e = RuntimeError ∨ e = IndexError).
Proof.
  intros H. unfold array_ndarray, payload_bytes in *.
  destruct (negb _); [by eauto|].
  destruct (nd_data a) as [elems|dtype_name item elems].
  - destruct elems as [|s elems]; [by eauto|].
    unfold mbind, M_bind, lift.
    rewrite string_nbytes_total by done.
    rewrite (proj2 (Z.gtb_gt _ _)) by lia. by eauto.
  - rewrite array_numeric_guard by done. by eauto.
Qed.

(** The recursive calls of [array] are made on rank-1 numeric arrays, which
    take the numeric path: they never recurse again. *)
Lemma array_ndarray_ext (C : Client)
    (self1 self2 : array_arg → M request akobject) (a : ndarray)
    (t : list request) :
  (∀ dtype_name item elems t',
     self1 (ArgNdarray {| nd_ndim := 1;
                          nd_data := NdNum dtype_name item elems |}) t'
     = self2 (ArgNdarray {| nd_ndim := 1;
                            nd_data := NdNum dtype_name item elems |}) t') →
  array_ndarray C self1 a t = array_ndarray C self2 a t.
Proof.
  intros Hself. unfold array_ndarray.
  destruct (negb _); [done|].
  destruct (nd_data a) as [elems|dtype_name item elems]; [|done].
  unfold mbind, M_bind, lift.
  destruct (string_nbytes _ _) as [nbytes|]; [|done].
  destruct (nbytes >? _); [done|].
  destruct (fill_values _ _) as [values|]; [|done].
  rewrite Hself. destruct (self2 _ t) as [[o|e] t']; [|done].
  by rewrite Hself.
Qed.

(** A depth of 2 is enough: [array] never raises [RecursionError] from
    there on, and any larger depth gives the same outcome. *)
Lemma array_depth (C : Client) (d : nat) (arg : array_arg) (t : list request) :
  array C (S (S d)) arg t = array C 2 arg t.
Proof.
  change (array_body C (array C (S d)) arg t
          = array_body C (array C 1) arg t).
  destruct arg as [p|a|o]; simpl; [done| |destruct (np_array C o); [|done]];
    by apply array_ndarray_ext.
Qed.

Lemma utf8_encode_cp_ascii (c : Z) :
  0 ≤ c < 128 → utf8_encode_cp c = Ok [c].
Proof.
  intros Hc. unfold utf8_encode_cp.
  by rewrite (proj2 (Z.ltb_ge _ _)), (proj2 (Z.ltb_lt _ _)) by lia.
Qed.

Local Arguments utf8_encode_cp : simpl never.

(** On ASCII text the encoding is the text itself, one byte per code
    point. *)
Lemma encode_ascii_text (s : pystr) :
  Forall (fun c => 0 ≤ c < 128) s → encode s = Ok s.
Proof.
  unfold encode. induction 1 as [|c s Hc _ IH]; [done|].
  simpl. rewrite utf8_encode_cp_ascii by done. simpl.
  destruct (sequence _) as [bs|]; simpl in *; [|done].
  by injection IH as ->.
Qed.

End ArrayFacts.

(** C6. For an input that is not a handle and whose payload exceeds
    [maxTransferBytes] (the packed elements on the numeric path, the segment
    buffer on the string path), [array] raises and the trace of requests is
    unchanged: nothing is sent.  The exception is [RuntimeError], or
    [IndexError] for an empty string array. *)
Theorem array_over_limit_sends_nothing (C : Creation.Client) (depth : nat)
    (arg : Creation.array_arg) (a : Creation.ndarray)
    (t : list Creation.request) :
  Creation.converted C arg = Some a →
  Creation.payload_bytes a > Creation.maxTransferBytes C →
  ∃ e, Creation.array C (S depth) arg t = (Raise e, t) ∧
       (e = RuntimeError ∨ e = IndexError).
Proof.
  intros Ha H. destruct arg as [p|a'|o]; simpl in *.
  - done.
  - injection Ha as ->. by apply array_ndarray_guard.
  - rewrite Ha. by apply array_ndarray_guard.
Qed.

Lemma array_over_limit_sends_nothing_witness :
  ∃ e, Creation.array (TestClient.client 4) 2
         (Creation.ArgNdarray
            (Creation.str_ndarray [str_of "abc"; str_of "de"])) []
       = (Raise e, []) ∧
       (e = RuntimeError ∨ e = IndexError).
Proof.
  apply (array_over_limit_sends_nothing (TestClient.client 4) 1 _
           (Creation.str_ndarray [str_of "abc"; str_of "de"])).
  - reflexivity.
  - reflexivity.
Defined.

(** C5. [array] takes [len(elem)], the number of code points, for the length
    of a segment, not the number of bytes of its UTF-8 encoding.  For the
    one-element array holding U+00E9, whose encoding is the two bytes C3 A9,
    the segment length is 2 instead of 3 and the buffer sent to the server
    is C3 A9 with no terminator; with a second element ["a"] the offsets are
    [0, 2] and the second segment starts where the terminator of the first
    should be. *)
Theorem array_segments_by_code_points :
  encode [233] = Ok [195; 169] ∧
  Creation.string_lengths [[233]] = [2] ∧
  snd (Creation.array (TestClient.client (2 ^ 30)) 2
         (Creation.ArgNdarray (Creation.str_ndarray [[233]])) [])
  = [Creation.ReqBytes
       (encode_ascii "array int64 1 " ++ [0; 0; 0; 0; 0; 0; 0; 0]);
     Creation.ReqBytes (encode_ascii "array uint8 2 " ++ [195; 169])] ∧
  snd (Creation.array (TestClient.client (2 ^ 30)) 2
         (Creation.ArgNdarray (Creation.str_ndarray [[233]; str_of "a"])) [])
  = [Creation.ReqBytes
       (encode_ascii "array int64 2 "
          ++ [0; 0; 0; 0; 0; 0; 0; 0] ++ [0; 0; 0; 0; 0; 0; 0; 2]);
     Creation.ReqBytes (encode_ascii "array uint8 4 " ++ [195; 169; 97; 0])].
Proof. repeat split; vm_compute; reflexivity. Qed.

(** ** [invert_permutation] *)

Section PermutationFacts.

Import Permutation.

Local Instance Z_le_anti_symm : AntiSymm (=) Z.le.
Proof. intros x y ??. lia. Qed.

(** *** The order on composite keys *)

Lemma lex_le_total (k1 k2 : list Z) :
  lex_le k1 k2 = false → lex_le k2 k1 = true.
Proof.
  revert k2. induction k1 as [|x k1 IH]; intros [|y k2]; simpl; try done.
  intros H. apply orb_false_iff in H as [Hlt H].
  apply Z.ltb_ge in Hlt.
  destruct (decide (x = y)) as [->|Hne].
  - rewrite Z.eqb_refl in *. simpl in H. rewrite (IH _ H).
    by rewrite orb_true_r.
  - rewrite (proj2 (Z.ltb_lt y x)) by lia. done.
Qed.

Lemma lex_le_trans (k1 k2 k3 : list Z) :
  lex_le k1 k2 = true → lex_le k2 k3 = true → lex_le k1 k3 = true.
Proof.
  revert k2 k3.
  induction k1 as [|x k1 IH]; intros [|y k2] [|z k3]; simpl; try done.
  intros H1 H2.
  apply orb_true_iff in H1 as [H1|H1], H2 as [H2|H2];
    apply orb_true_iff;
    repeat match goal with
      | H : _ && _ = true |- _ => apply andb_true_iff in H as [? ?]
      | H : (_ <? _) = true |- _ => apply Z.ltb_lt in H
      | H : (_ =? _) = true |- _ => apply Z.eqb_eq in H
      end.
  - left. apply Z.ltb_lt. lia.
  - left. apply Z.ltb_lt. lia.
  - left. apply Z.ltb_lt. lia.
  - right. apply andb_true_iff. split; [apply Z.eqb_eq; lia|]. by eapply IH.
Qed.

Local Instance key_le_trans : Transitive key_le.
Proof. intros r1 r2 r3. apply lex_le_trans. Qed.

Lemma lex_le_head x k1 y k2 : lex_le (x :: k1) (y :: k2) = true → x ≤ y.
Proof.
  simpl. intros [H|H]%orb_true_iff.
  - apply Z.ltb_lt in H. lia.
  - apply andb_true_iff in H as [H _]. apply Z.eqb_eq in H. lia.
Qed.

(** *** The insertion sort *)

Lemma insert_row_perm r l : insert_row r l ≡ₚ r :: l.
Proof.
  induction l as [|r' l IH]; simpl; [done|].
  case_match; [done|]. rewrite IH. apply Permutation_swap.
Qed.

Lemma sort_rows_perm l : sort_rows l ≡ₚ l.
Proof.
  induction l as [|r l IH]; simpl; [done|].
  by rewrite insert_row_perm, IH.
Qed.

Lemma insert_row_HdRel r0 r l :
  key_le r0 r → HdRel key_le r0 l → HdRel key_le r0 (insert_row r l).
Proof.
  intros H0 Hl. destruct l as [|r' l]; simpl.
  - by constructor.
  - case_match; constructor; [done|]. by apply HdRel_inv in Hl.
Qed.

Lemma insert_row_Sorted r l :
  Sorted key_le l → Sorted key_le (insert_row r l).
Proof.
  induction 1 as [|r' l Hl IH Hhd]; simpl.
  - by repeat constructor.
  - case_match eqn:E.
    + constructor; [by constructor|]. by constructor.
    + constructor; [done|].
      apply insert_row_HdRel; [|done]. by apply lex_le_total.
Qed.

Lemma sort_rows_Sorted l : StronglySorted key_le (sort_rows l).
Proof.
  apply Sorted_StronglySorted; [apply _|].
  induction l as [|r l IH]; simpl; [constructor|].
  by apply insert_row_Sorted.
Qed.

Lemma StronglySorted_key1 (l : list (list Z * nat)) :
  Forall (fun r => fst r ≠ []) l →
  StronglySorted key_le l → StronglySorted Z.le (key1 <$> l).
Proof.
  intros Hne Hs. induction Hs as [|r l Hs IH Hall]; simpl; constructor.
  - apply IH. by eapply Forall_inv_tail.
  - apply Forall_fmap, Forall_forall. intros r' Hr'.
    rewrite Forall_forall in Hall. specialize (Hall _ Hr').
    apply Forall_cons in Hne as [Hr Hne].
    rewrite Forall_forall in Hne. specialize (Hne _ Hr').
    unfold key_le in Hall. unfold compose, key1.
    destruct (fst r) as [|x k]; [done|].
    destruct (fst r') as [|y k']; [done|].
    exact (lex_le_head _ _ _ _ Hall).
Qed.

Lemma StronglySorted_seqZ (m n : Z) : StronglySorted Z.le (seqZ m n).
Proof.
  destruct (decide (0 ≤ n)) as [Hn|Hn].
  2: { rewrite seqZ_nil by lia. constructor. }
  revert m. pattern n. apply natlike_ind; [| |done].
  - intros m. rewrite seqZ_nil by lia. constructor.
  - intros k Hk IH m. rewrite seqZ_cons by lia.
    replace (Z.pred (Z.succ k)) with k by lia.
    constructor; [apply IH|].
    apply Forall_seqZ. lia.
Qed.

(** *** The rows of [(perm, identity)] *)

Section Rows.

Context (perm : list Z).
Let n : nat := length perm.
Let identity : list Z := seqZ 0 (Z.of_nat n).
Let rows : list (list Z * nat) :=
  (fun i => (key_row [perm; identity] i, i)) <$> seq 0 n.

Lemma key_row_pair (i : nat) (v : Z) :
  perm !! i = Some v → key_row [perm; identity] i = [v; Z.of_nat i].
Proof.
  intros Hv. pose proof (lookup_lt_Some _ _ _ Hv) as Hi.
  unfold key_row. simpl. rewrite Hv. unfold identity.
  rewrite lookup_seqZ_lt by (fold n; lia). simpl. by rewrite Z.add_0_l.
Qed.

Lemma rows_lookup (i : nat) (v : Z) :
  perm !! i = Some v → rows !! i = Some ([v; Z.of_nat i], i).
Proof.
  intros Hv. pose proof (lookup_lt_Some _ _ _ Hv) as Hi.
  unfold rows. rewrite list_lookup_fmap, lookup_seq_lt by done.
  change (Some (key_row [perm; identity] i, i) = Some ([v; Z.of_nat i], i)).
  by rewrite (key_row_pair i v Hv).
Qed.

Lemma rows_elem (r : list Z * nat) :
  r ∈ rows →
  ∃ v, perm !! snd r = Some v ∧ r = ([v; Z.of_nat (snd r)], snd r).
Proof.
  intros (i & -> & Hi)%list_elem_of_fmap.
  apply elem_of_seq in Hi.
  assert (is_Some (perm !! i)) as [v Hv] by (apply lookup_lt_is_Some; lia).
  exists v. split; [done|].
  by rewrite (key_row_pair i v Hv).
Qed.

Lemma key1_rows : key1 <$> rows = perm.
Proof.
  apply list_eq. intros i. rewrite list_lookup_fmap.
  destruct (perm !! i) as [v|] eqn:Hv.
  - by rewrite (rows_lookup i v Hv).
  - apply lookup_ge_None in Hv. unfold rows.
    rewrite list_lookup_fmap, lookup_seq_ge; [done|]. fold n. lia.
Qed.

Lemma length_rows : length rows = n.
Proof. unfold rows. by rewrite length_fmap, length_seq. Qed.

(** The sorted leading keys of a permutation of [0, n) are
    [0, 1, ..., n - 1]. *)
Lemma key1_sort_rows :
  is_permutation perm → key1 <$> sort_rows rows = identity.
Proof.
  intros Hp. apply (StronglySorted_unique Z.le).
  - apply StronglySorted_key1; [|apply sort_rows_Sorted].
    apply Forall_forall. intros r Hr.
    rewrite sort_rows_perm in Hr.
    apply rows_elem in Hr as (v & _ & ->). done.
  - apply StronglySorted_seqZ.
  - rewrite sort_rows_perm, key1_rows. exact Hp.
Qed.

(** Position [perm[i]] of the sorted rows holds row [i]. *)
Lemma sort_rows_lookup (i : nat) (v : Z) :
  is_permutation perm → perm !! i = Some v →
  sort_rows rows !! Z.to_nat v = Some ([v; Z.of_nat i], i).
Proof.
  intros Hp Hv. pose proof Hp as Hperm. unfold is_permutation in Hperm.
  assert (0 ≤ v < Z.of_nat n) as Hrange.
  { assert (v ∈ perm) as Hin by (by eapply list_elem_of_lookup_2).
    rewrite Hperm in Hin. apply elem_of_seqZ in Hin. fold n in Hin. lia. }
  assert (is_Some (sort_rows rows !! Z.to_nat v)) as [r Hr].
  { apply lookup_lt_is_Some.
    rewrite (Permutation_length (sort_rows_perm rows)), length_rows. lia. }
  assert (key1 r = v) as Hk.
  { pose proof (key1_sort_rows Hp) as Hs.
    apply (f_equal (fun l => l !! Z.to_nat v)) in Hs.
    rewrite list_lookup_fmap, Hr in Hs. unfold identity in Hs.
    rewrite lookup_seqZ_lt in Hs by lia. simpl in Hs.
    injection Hs as Hs. lia. }
  assert (r ∈ rows) as Hin.
  { rewrite <- (sort_rows_perm rows). by eapply list_elem_of_lookup_2. }
  apply rows_elem in Hin as (v' & Hv' & Er).
  rewrite Er in Hk. unfold key1 in Hk. simpl in Hk. subst v'.
  assert (NoDup perm) as Hnd.
  { rewrite Hperm. apply NoDup_seqZ. }
  rewrite (NoDup_lookup _ _ _ _ Hnd Hv Hv').
  by rewrite Hr, Er.
Qed.

End Rows.

(** *** The check on [unique] *)

Lemma remove_dups_NoDup {A} `{EqDecision A} (l : list A) :
  NoDup l → remove_dups l = l.
Proof.
  induction 1 as [|x l Hx _ IH]; simpl; [done|].
  destruct (decide_rel _ x l); [done|]. by rewrite IH.
Qed.

Lemma length_remove_dups_le {A} `{EqDecision A} (l : list A) :
  (length (remove_dups l) ≤ length l)%nat.
Proof.
  induction l as [|x l IH]; simpl; [done|].
  destruct (decide_rel _ x l); simpl; lia.
Qed.

Lemma length_remove_dups_NoDup {A} `{EqDecision A} (l : list A) :
  length (remove_dups l) = length l ↔ NoDup l.
Proof.
  split; [|by intros ->%remove_dups_NoDup].
  induction l as [|x l IH]; simpl; [constructor|].
  pose proof (length_remove_dups_le l).
  destruct (decide_rel _ x l); simpl; [lia|].
  intros Hlen. constructor; [done|]. apply IH. lia.
Qed.

Lemma length_unique (pda : list Z) :
  length (merge_sort Z.le (remove_dups pda)) = length (remove_dups pda).
Proof. apply Permutation_length, merge_sort_Permutation. Qed.

(** [invert_permutation] raises exactly when [perm] has a repeated value;
    otherwise it returns what the joint sort returns. *)
Lemma invert_permutation_unfold (perm : list Z) (t : list request) :
  invert_permutation perm t =
  if decide (NoDup perm) then
    coargsort [perm; seqZ 0 (Z.of_nat (length perm))]
      (t ++ [ReqUnique perm; ReqArange 0 (Z.of_nat (length perm)) 1])
  else (Raise ValueError, t ++ [ReqUnique perm]).
Proof.
  unfold invert_permutation, mbind, M_bind, unique, arange. simpl.
  rewrite length_unique.
  case_decide as Hnd.
  - rewrite (proj2 (length_remove_dups_NoDup perm) Hnd), Nat.eqb_refl.
    simpl. rewrite Z.sub_0_r, <- app_assoc. done.
  - destruct (_ =? _)%nat eqn:E; simpl; [|done].
    apply Nat.eqb_eq in E. by apply length_remove_dups_NoDup in E.
Qed.

End PermutationFacts.

(** C2. For a permutation [perm] of the integers [0, n), [invert_permutation]
    asks the server for [unique], for the range [0, n) and for the joint sort
    of [(perm, range)], in that order, and returns the outcome [inv] of the
    sort, which satisfies [inv[perm[i]] == i] at every index [i]. *)
Theorem invert_permutation_inverts (perm : list Z)
    (t : list Permutation.request) :
  Permutation.is_permutation perm →
  ∃ inv : list Z,
    Permutation.invert_permutation perm t =
      (Ok inv,
       t ++ [Permutation.ReqUnique perm;
             Permutation.ReqArange 0 (Z.of_nat (length perm)) 1;
             Permutation.ReqCoargsort
               [perm; seqZ 0 (Z.of_nat (length perm))]]) ∧
    length inv = length perm ∧
    ∀ (i : nat) (v : Z),
      perm !! i = Some v → inv !! Z.to_nat v = Some (Z.of_nat i).
Proof.
  intros Hp. rewrite invert_permutation_unfold.
  rewrite decide_True.
  2: { unfold Permutation.is_permutation in Hp. rewrite Hp. apply NoDup_seqZ. }
  unfold Permutation.coargsort.
  assert (Permutation.same_size [perm; seqZ 0 (Z.of_nat (length perm))] = true)
    as ->.
  { simpl. rewrite length_seqZ, Nat2Z.id, Nat.eqb_refl. done. }
  eexists. split; [|split].
  - rewrite <- app_assoc. reflexivity.
  - rewrite length_fmap, (Permutation_length (sort_rows_perm _)).
    by rewrite length_fmap, length_seq.
  - intros i v Hv. rewrite list_lookup_fmap.
    change (default [] (head [perm; seqZ 0 (Z.of_nat (length perm))]))
      with perm.
    by rewrite (sort_rows_lookup perm i v Hp Hv).
Qed.

Lemma invert_permutation_inverts_witness :
  ∃ inv : list Z,
    Permutation.invert_permutation [2; 0; 3; 1] [] =
      (Ok inv,
       [] ++ [Permutation.ReqUnique [2; 0; 3; 1];
              Permutation.ReqArange 0 4 1;
              Permutation.ReqCoargsort [[2; 0; 3; 1]; seqZ 0 4]]) ∧
    length inv = 4%nat ∧
    ∀ (i : nat) (v : Z),
      [2; 0; 3; 1] !! i = Some v → inv !! Z.to_nat v = Some (Z.of_nat i).
Proof.
  apply (invert_permutation_inverts [2; 0; 3; 1] []).
  unfold Permutation.is_permutation. vm_compute seqZ.
  apply (@Permutation_cons_app _ _ [0; 1] [3] 2).
  apply perm_skip, Permutation_swap.
Defined.

(** C3. [invert_permutation] rejects exactly the arrays with a repeated
    value.  The array [[0, 5]] has two distinct values, one of them outside
    [0, 2): it is not a permutation, yet no [ValueError] is raised, the sort
    is issued and [[0, 1]] is returned. *)
Theorem invert_permutation_accepts_out_of_range :
  Permutation.invert_permutation [0; 5] [] =
    (Ok [0; 1],
     [Permutation.ReqUnique [0; 5]; Permutation.ReqArange 0 2 1;
      Permutation.ReqCoargsort [[0; 5]; [0; 1]]]) ∧
  ¬ Permutation.is_permutation [0; 5] ∧
  (∀ (perm : list Z) (t : list Permutation.request),
     fst (Permutation.invert_permutation perm t) = Raise ValueError
     ↔ ¬ NoDup perm).
Proof.
  split; [|split].
  - vm_compute. reflexivity.
  - unfold Permutation.is_permutation. intros Hp.
    assert (5 ∈ [0; 5]) as Hin.
    { apply list_elem_of_further, list_elem_of_here. }
    rewrite Hp in Hin. apply elem_of_seqZ in Hin. simpl in Hin. lia.
  - intros perm t. rewrite invert_permutation_unfold.
    case_decide as Hnd; simpl.
    + split; [|done]. unfold Permutation.coargsort. simpl.
      rewrite length_seqZ, Nat2Z.id, Nat.eqb_refl. done.
    + done.
Qed.

(** ** [attach] *)

Section AttachFacts.

Import Registry.

Context {handle : Type} (C : Client handle).

(** A reply whose tag matches no branch leaves [rtn_obj] at [None]. *)
Lemma dispatch_no_match (rep_msg : json) (tag : pystr)
    (bs : list (pystr * kind)) :
  getitem rep_msg (str_of "objType") = Ok (JStr tag) →
  Forall (fun b => str_lower C tag ≠ str_lower C (fst b)) bs →
  dispatch C rep_msg bs = Ok None.
Proof.
  intros Htag. induction 1 as [|[known k] bs Hne _ IH]; simpl; [done|].
  unfold tag_matches. rewrite Htag. simpl.
  by rewrite bool_decide_eq_false_2.
Qed.

End AttachFacts.

(** C9. When the reply to [attach] decodes to an object whose ["objType"] is
    a string that, lower-cased, differs from the lower-cased tag of every
    known handle kind, [attach] returns [None]: it raises nothing, after the
    one request it sent. *)
Theorem attach_unknown_tag_returns_None {handle : Type}
    (C : Registry.Client handle) (name : pystr) (t : list Registry.request)
    (reply : string) (rep_msg : Registry.json) (tag : pystr) :
  let req :=
    {| Registry.cmd := "attach"; Registry.args := [("name"%string, name)] |} in
  Registry.server C t req = Ok reply →
  Registry.json_loads C reply = Ok rep_msg →
  Registry.getitem rep_msg (str_of "objType") = Ok (Registry.JStr tag) →
  (∀ known : pystr,
     known ∈ Registry.known_tags C →
     Registry.str_lower C tag ≠ Registry.str_lower C known) →
  Registry.attach C name t = (Ok None, t ++ [req]).
Proof.
  intros req Hreply Hjson Htag Hunknown.
  unfold Registry.attach, Registry.generic_msg, mbind, M_bind, lift.
  fold req. rewrite Hreply, Hjson.
  rewrite (dispatch_no_match C rep_msg tag); [done|done|].
  apply Forall_forall. intros [known k] Hin. apply Hunknown.
  apply list_elem_of_fmap. by exists (known, k).
Qed.

Lemma attach_unknown_tag_returns_None_witness :
  Registry.attach
    (TestClient.registry
       (Registry.JObj
          [(str_of "objType", Registry.JStr (str_of "Histogram"));
           (str_of "create", Registry.JStr (str_of "created id_7"))]))
    (str_of "my_array") []
  = (Ok None,
     [] ++ [{| Registry.cmd := "attach";
               Registry.args := [("name"%string, str_of "my_array")] |}]).
Proof.
  apply (attach_unknown_tag_returns_None _ _ _ "reply"
           (Registry.JObj
              [(str_of "objType", Registry.JStr (str_of "Histogram"));
               (str_of "create", Registry.JStr (str_of "created id_7"))])
           (str_of "Histogram")).
  - reflexivity.
  - reflexivity.
  - reflexivity.
  - apply Forall_forall. unfold Registry.known_tags, Registry.branches.
    simpl. repeat (constructor; [by vm_compute|]). constructor.
Defined.
(** * Further properties *)

(** ** The algebra of broadcasting *)

Section BroadcastAlgebra.

Import Broadcast.

(** The outcome of combining two aligned shapes. *)
Local Abbreviation zipB l k := (sequence (zip_with broadcast_pair l k)).

Lemma broadcast_pair_raise_iff d1 d2 :
  (∃ e, broadcast_pair d1 d2 = Raise e) ↔ d1 ≠ 1 ∧ d2 ≠ 1 ∧ d1 ≠ d2.
Proof.
  unfold broadcast_pair. split.
  - intros [e He].
    destruct (Z.eqb_spec d1 1), (Z.eqb_spec d2 1), (Z.eqb_spec d1 d2); done.
  - intros (H1 & H2 & H3).
    rewrite (proj2 (Z.eqb_neq _ _) H1), (proj2 (Z.eqb_neq _ _) H2),
      (proj2 (Z.eqb_neq _ _) H3).
    by eauto.
Qed.

Lemma zipB_raise l k e : zipB l k = Raise e → e = ValueError.
Proof.
  apply sequence_raise, Forall_lookup. intros i r Hr e' ->.
  apply lookup_zip_with_Some in Hr as (d1 & d2 & ? & _).
  by eapply broadcast_pair_raise.
Qed.

Lemma zipB_length l k out :
  length l = length k → zipB l k = Ok out → length out = length l.
Proof.
  intros Hlen Hout. apply sequence_length in Hout.
  rewrite Hout, length_zip_with. lia.
Qed.

Lemma zipB_ones (j : nat) l k :
  zipB (replicate j 1 ++ l) (replicate j 1 ++ k)
  = (out ← zipB l k; Ok (replicate j 1 ++ out)).
Proof.
  induction j as [|j IH]; simpl.
  - by destruct (zipB l k).
  - rewrite IH. by destruct (zipB l k).
Qed.

Lemma right_align_split (n m : nat) (s : list Z) :
  (length s ≤ m)%nat → (m ≤ n)%nat →
  right_align n s = replicate (n - m) 1 ++ right_align m s.
Proof.
  intros. unfold right_align. rewrite app_assoc, <- replicate_add.
  do 2 f_equal. lia.
Qed.

Lemma right_align_full (s : list Z) : right_align (length s) s = s.
Proof. unfold right_align. by rewrite Nat.sub_diag. Qed.

Lemma spec_length sa sb out :
  broadcastDims_spec sa sb = Ok out →
  length out = Nat.max (length sa) (length sb).
Proof.
  unfold broadcastDims_spec. intros H.
  apply zipB_length in H; rewrite ?length_right_align in *; lia.
Qed.

(** Aligning to a longer length only adds leading ones to the outcome. *)
Lemma spec_at (n : nat) sa sb :
  (length sa ≤ n)%nat → (length sb ≤ n)%nat →
  zipB (right_align n sa) (right_align n sb)
  = (out ← broadcastDims_spec sa sb; Ok (right_align n out)).
Proof.
  intros Ha Hb. set (m := Nat.max (length sa) (length sb)).
  rewrite (right_align_split n m sa), (right_align_split n m sb) by lia.
  rewrite zipB_ones. fold m.
  destruct (broadcastDims_spec sa sb) as [out|e] eqn:E;
    unfold broadcastDims_spec in E; fold m in E; rewrite E; simpl; [|done].
  apply zipB_length in E; [|rewrite !length_right_align; lia].
  rewrite length_right_align in E by lia.
  rewrite (right_align_split n m out) by lia.
  by rewrite <- E, right_align_full.
Qed.

Lemma spec_aligned (n : nat) l k :
  length l = n → length k = n → broadcastDims_spec l k = zipB l k.
Proof.
  intros Hl Hk. unfold broadcastDims_spec.
  rewrite Hl, Hk, Nat.max_id.
  by rewrite <- Hl at 1; rewrite right_align_full, <- Hk, right_align_full.
Qed.

Lemma broadcast_pair_assoc a b c :
  (x ← broadcast_pair a b; broadcast_pair x c)
  = (y ← broadcast_pair b c; broadcast_pair a y).
Proof.
  unfold broadcast_pair.
  destruct (Z.eqb_spec a 1), (Z.eqb_spec b 1), (Z.eqb_spec c 1),
    (Z.eqb_spec a b), (Z.eqb_spec b c); simpl; subst; try lia;
    repeat match goal with
      | |- context [?x =? ?y] => destruct (Z.eqb_spec x y); try lia
      end; simpl; try done.
Qed.

Lemma zipB_assoc (A B C : list Z) :
  length A = length B → length B = length C →
  (x ← zipB A B; zipB x C) = (y ← zipB B C; zipB A y).
Proof.
  revert B C. induction A as [|a A IH]; intros [|b B] [|c C] HAB HBC;
    try done.
  simpl in HAB, HBC.
  specialize (IH B C ltac:(lia) ltac:(lia)).
  pose proof (broadcast_pair_assoc a b c) as Hp.
  pose proof (broadcast_pair_raise a b) as Rab.
  pose proof (broadcast_pair_raise b c) as Rbc.
  pose proof (zipB_raise A B) as RAB.
  pose proof (zipB_raise B C) as RBC.
  simpl.
  destruct (broadcast_pair a b) as [x|e1]; simpl in *;
    [|rewrite (Rab e1 eq_refl) in *];
    destruct (broadcast_pair b c) as [y|e2]; simpl in *;
    try rewrite (Rbc e2 eq_refl) in *;
    destruct (zipB A B) as [xs|e3]; simpl in *;
    try rewrite (RAB e3 eq_refl) in *;
    destruct (zipB B C) as [ys|e4]; simpl in *;
    try rewrite (RBC e4 eq_refl) in *;
    try rewrite Hp; try rewrite <- Hp; try rewrite IH; try rewrite <- IH;
    try done.
  all: repeat match goal with
         | |- context [broadcast_pair ?u ?v] =>
             let E := fresh in
             destruct (broadcast_pair u v) eqn:E; simpl;
             try (apply broadcast_pair_raise in E; subst)
         | |- context [sequence ?l] =>
             let E := fresh in
             destruct (sequence l) eqn:E; simpl;
             try (apply zipB_raise in E; subst)
         end; try done; try congruence.
Qed.

Lemma sequence_raise_lookup {A} (rs : list (result A)) :
  (∃ e, sequence rs = Raise e) ↔ ∃ i e, rs !! i = Some (Raise e).
Proof.
  induction rs as [|r rs IH]; simpl.
  - split; [by intros [e ?]|by intros (i & e & ?)].
  - destruct r as [x|e]; simpl.
    + destruct (sequence rs) as [xs|e'] eqn:E; simpl.
      * split; [by intros [e ?]|].
        intros ([|i] & e & Hi); [done|].
        destruct (proj2 IH) as [e' He']; [by eauto|done].
      * split; [|by eauto].
        intros _. destruct (proj1 IH) as (i & e & Hi); [by eauto|].
        by exists (S i), e.
    + split; [|by eauto]. intros _. by exists 0%nat, e.
Qed.

Lemma zipB_same (s : list Z) : zipB s s = Ok s.
Proof.
  induction s as [|d s IH]; simpl; [done|].
  rewrite IH. unfold broadcast_pair.
  destruct (Z.eqb_spec d 1); simpl; [by subst|].
  by rewrite Z.eqb_refl.
Qed.

Lemma zipB_ones_r (s : list Z) : zipB s (replicate (length s) 1) = Ok s.
Proof.
  induction s as [|d s IH]; simpl; [done|].
  rewrite IH. unfold broadcast_pair.
  by destruct (Z.eqb_spec d 1); simpl; subst.
Qed.

Lemma right_align_ones (n : nat) (s : list Z) :
  (length s ≤ n)%nat → Forall (eq 1) s → right_align n s = replicate n 1.
Proof.
  intros Hn Hs. unfold right_align.
  assert (replicate (length s) 1 = s) as E by by apply replicate_as_Forall.
  rewrite <- E at 2. rewrite <- replicate_add. f_equal. lia.
Qed.

(** Chained broadcasts, read on the shapes aligned to a common length. *)
Lemma spec_chain_l (n : nat) sa sb sc :
  n = Nat.max (Nat.max (length sa) (length sb)) (length sc) →
  (ab ← broadcastDims_spec sa sb; broadcastDims_spec ab sc)
  = (x ← zipB (right_align n sa) (right_align n sb);
     zipB x (right_align n sc)).
Proof.
  intros Hn. rewrite spec_at by lia.
  destruct (broadcastDims_spec sa sb) as [ab|e] eqn:E; simpl; [|done].
  apply spec_length in E. unfold broadcastDims_spec.
  by rewrite E, <- Hn.
Qed.

Lemma spec_chain_r (n : nat) sa sb sc :
  n = Nat.max (length sa) (Nat.max (length sb) (length sc)) →
  (bc ← broadcastDims_spec sb sc; broadcastDims_spec sa bc)
  = (y ← zipB (right_align n sb) (right_align n sc);
     zipB (right_align n sa) y).
Proof.
  intros Hn. rewrite spec_at by lia.
  destruct (broadcastDims_spec sb sc) as [bc|e] eqn:E; simpl; [|done].
  apply spec_length in E. unfold broadcastDims_spec.
  by rewrite E, <- Hn.
Qed.

Lemma spec_assoc sa sb sc :
  (ab ← broadcastDims_spec sa sb; broadcastDims_spec ab sc)
  = (bc ← broadcastDims_spec sb sc; broadcastDims_spec sa bc).
Proof.
  set (n := Nat.max (Nat.max (length sa) (length sb)) (length sc)).
  rewrite (spec_chain_l n), (spec_chain_r n) by lia.
  apply zipB_assoc; rewrite !length_right_align; lia.
Qed.

Lemma spec_same s : broadcastDims_spec s s = Ok s.
Proof. rewrite (spec_aligned (length s)) by done. apply zipB_same. Qed.

End BroadcastAlgebra.

(** X1. [broadcast_dims] either raises [ValueError] or returns a shape as
    long as the longer of its two arguments; no index it reads is out of
    range. *)
Theorem broadcast_dims_length_or_ValueError (sa sb : list Z) :
  match Broadcast.broadcast_dims sa sb with
  | Ok out => length out = Nat.max (length sa) (length sb)
  | Raise e => e = ValueError
  end.
Proof.
  rewrite broadcast_dims_unfold.
  destruct (Broadcast.broadcastDims_spec sa sb) as [out|e] eqn:E.
  - by apply spec_length.
  - by eapply zipB_raise.
Qed.

(** X2. [broadcast_dims] raises exactly when some position of the
    right-aligned shapes holds two dimensions that differ and are both
    other than 1. *)
Theorem broadcast_dims_raises_iff (sa sb : list Z) :
  let n := Nat.max (length sa) (length sb) in
  Broadcast.broadcast_dims sa sb = Raise ValueError ↔
  ∃ (i : nat) (d1 d2 : Z),
    Broadcast.right_align n sa !! i = Some d1 ∧
    Broadcast.right_align n sb !! i = Some d2 ∧
    d1 ≠ 1 ∧ d2 ≠ 1 ∧ d1 ≠ d2.
Proof.
  intros n. rewrite broadcast_dims_unfold.
  unfold Broadcast.broadcastDims_spec. fold n. split.
  - intros H.
    destruct (proj1 (sequence_raise_lookup _) (ex_intro _ _ H))
      as (i & e & Hi).
    apply lookup_zip_with_Some in Hi as (d1 & d2 & Hp & H1 & H2).
    exists i, d1, d2. split; [done|]. split; [done|].
    apply broadcast_pair_raise_iff. by eauto.
  - intros (i & d1 & d2 & H1 & H2 & Hne).
    apply broadcast_pair_raise_iff in Hne as [e He].
    destruct (proj2 (sequence_raise_lookup
      (zip_with Broadcast.broadcast_pair (Broadcast.right_align n sa)
         (Broadcast.right_align n sb)))) as [e' He'].
    { exists i, e. rewrite lookup_zip_with, H1, H2. simpl. by rewrite He. }
    rewrite He'. f_equal. by eapply zipB_raise.
Qed.

(** X3. A shape of ones that is not longer than [sa], the empty shape
    included, is neutral: broadcasting [sa] with it returns [sa]. *)
Theorem broadcast_dims_ones_neutral (sa sb : list Z) :
  (length sb ≤ length sa)%nat → Forall (eq 1) sb →
  Broadcast.broadcast_dims sa sb = Ok sa.
Proof.
  intros Hlen Hones. rewrite broadcast_dims_unfold.
  unfold Broadcast.broadcastDims_spec.
  rewrite Nat.max_l by done.
  rewrite right_align_full, right_align_ones by done.
  apply zipB_ones_r.
Qed.

Lemma broadcast_dims_ones_neutral_witness :
  Broadcast.broadcast_dims [2; 0; 7] [1; 1] = Ok [2; 0; 7].
Proof.
  apply broadcast_dims_ones_neutral.
  - simpl. lia.
  - repeat constructor.
Defined.

(** X4. Broadcasting a shape with itself returns it, whatever its
    dimensions. *)
Theorem broadcast_dims_idempotent (s : list Z) :
  Broadcast.broadcast_dims s s = Ok s.
Proof. rewrite broadcast_dims_unfold. apply spec_same. Qed.

(** X5. Broadcasting is associative: combining three shapes left to right
    or right to left gives the same shape, and fails in the same cases. *)
Theorem broadcast_dims_assoc (sa sb sc : list Z) :
  (ab ← Broadcast.broadcast_dims sa sb; Broadcast.broadcast_dims ab sc)
  = (bc ← Broadcast.broadcast_dims sb sc; Broadcast.broadcast_dims sa bc).
Proof.
  pose proof (spec_assoc sa sb sc) as H.
  rewrite <- !broadcast_dims_unfold in H.
  destruct (Broadcast.broadcast_dims sa sb) as [ab|e1];
    destruct (Broadcast.broadcast_dims sb sc) as [bc|e2]; simpl in *;
    by rewrite ?broadcast_dims_unfold.
Qed.

(** X6. The broadcast shape absorbs its arguments: when [sa] and [sb]
    broadcast to [out], broadcasting [out] with [sa] or with [sb] returns
    [out] again. *)
Theorem broadcast_dims_absorbs (sa sb out : list Z) :
  Broadcast.broadcast_dims sa sb = Ok out →
  Broadcast.broadcast_dims sa out = Ok out ∧
  Broadcast.broadcast_dims out sb = Ok out.
Proof.
  rewrite !broadcast_dims_unfold. intros H. split.
  - pose proof (spec_assoc sa sa sb) as Ha.
    rewrite spec_same, H in Ha. simpl in Ha. by rewrite <- Ha.
  - pose proof (spec_assoc sa sb sb) as Ha.
    rewrite spec_same, H in Ha. simpl in Ha. by rewrite Ha.
Qed.

Lemma broadcast_dims_absorbs_witness :
  Broadcast.broadcast_dims [5; 1] [5; 3] = Ok [5; 3] ∧
  Broadcast.broadcast_dims [5; 3] [1; 3] = Ok [5; 3].
Proof. apply (broadcast_dims_absorbs [5; 1] [1; 3]). reflexivity. Defined.

(** ** Shapes *)

Section ShapeFacts.

Import Shapes.

Lemma fold_left_mul (l : list Z) (a : Z) :
  fold_left Z.mul l a = a * fold_left Z.mul l 1.
Proof.
  revert a. induction l as [|x l IH]; intros a; simpl; [lia|].
  rewrite (IH (a * x)), (IH (1 * x)). lia.
Qed.

Lemma maprod_cons (x : Z) (l : list Z) : maprod (x :: l) = x * maprod l.
Proof. unfold maprod. simpl. rewrite fold_left_mul. lia. Qed.

Lemma maprod_twos (k : nat) (d : Z) :
  maprod (replicate k 2 ++ [d]) = 2 ^ Z.of_nat k * d.
Proof.
  induction k as [|k IH].
  - unfold maprod. simpl. lia.
  - change (replicate (S k) 2 ++ [d]) with (2 :: (replicate k 2 ++ [d])).
    rewrite maprod_cons, IH, Nat2Z.inj_succ, Z.pow_succ_r by lia. lia.
Qed.

Lemma generate_test_shape_size (rank : positive) (size : Z) :
  snd (_generate_test_shape rank size)
  = 2 ^ (Z.pos rank - 1) * Z.max 2 (size / 2 ^ (Z.pos rank - 1)).
Proof.
  unfold _generate_test_shape. simpl. rewrite maprod_twos.
  do 2 f_equal. lia.
Qed.

End ShapeFacts.

(** X7. The shape [_generate_test_shape] builds has [rank] dimensions, each
    at least 2, so its size is at least [2 ** rank]; the size returned with
    it is the product of the dimensions. *)
Theorem generate_test_shape_dims (rank : positive) (size : Z) :
  let '(shape, local_size) := Shapes._generate_test_shape rank size in
  length shape = Pos.to_nat rank ∧
  Forall (fun d => 2 ≤ d) shape ∧
  local_size = Shapes.maprod shape ∧
  2 ^ Z.pos rank ≤ local_size.
Proof.
  pose proof (generate_test_shape_size rank size) as Hsize.
  unfold Shapes._generate_test_shape in *. simpl in Hsize.
  repeat split.
  - rewrite length_app, length_replicate. simpl. lia.
  - apply Forall_app. split.
    + apply Forall_replicate. lia.
    + repeat constructor. lia.
  - rewrite Hsize.
    replace (Z.pos rank) with (Z.succ (Z.pos rank - 1)) at 1 by lia.
    rewrite Z.pow_succ_r by lia.
    assert (0 < 2 ^ (Z.pos rank - 1)) by (apply Z.pow_pos_nonneg; lia).
    nia.
Qed.

(** X8. When [size] is at least [2 ** rank], the size of the generated shape
    is the largest multiple of [2 ** (rank - 1)] that does not exceed
    [size]; for a smaller [size] it is [2 ** rank]. *)
Theorem generate_test_shape_close (rank : positive) (size : Z) :
  let local_size := snd (Shapes._generate_test_shape rank size) in
  let half := 2 ^ (Z.pos rank - 1) in
  if 2 ^ Z.pos rank <=? size
  then local_size ≤ size < local_size + half ∧ local_size mod half = 0
  else local_size = 2 ^ Z.pos rank.
Proof.
  intros local_size half. unfold local_size.
  rewrite generate_test_shape_size. fold half.
  assert (0 < half) as Hhalf by (apply Z.pow_pos_nonneg; lia).
  assert (2 ^ Z.pos rank = 2 * half) as ->.
  { unfold half.
    replace (Z.pos rank) with (Z.succ (Z.pos rank - 1)) at 1 by lia.
    by rewrite Z.pow_succ_r by lia. }
  pose proof (Z.div_mod size half ltac:(lia)) as Hdm.
  pose proof (Z.mod_pos_bound size half Hhalf) as Hmod.
  destruct (Z.leb_spec (2 * half) size) as [Hle|Hlt].
  - assert (2 ≤ size / half) by (apply Z.div_le_lower_bound; lia).
    rewrite Z.max_r by lia. split; [lia|].
    rewrite Z.mul_comm. apply Z.mod_mul. lia.
  - assert (size / half < 2) by (apply Z.div_lt_upper_bound; lia).
    rewrite Z.max_l by lia. lia.
Qed.

(** X9. [_infer_shape_from_size] applied to the shape that
    [_generate_test_shape] returns gives back that shape, [rank] as the
    number of dimensions, and the same size. *)
Theorem infer_shape_of_generated (rank : positive) (size : Z) :
  let '(shape, local_size) := Shapes._generate_test_shape rank size in
  Shapes._infer_shape_from_size (Shapes.SizeTuple shape)
  = (Shapes.SizeTuple shape, Z.pos rank, local_size).
Proof.
  unfold Shapes._generate_test_shape, Shapes._infer_shape_from_size.
  rewrite length_app, length_replicate. simpl length.
  do 2 f_equal. lia.
Qed.

(** ** More on [arange], [randint] and [standard_normal] *)

Section RequestFacts.

Import Creation.

Lemma app_singleton_neq {A} (t : list A) (x : A) : t ++ [x] ≠ t.
Proof.
  intros H. apply (f_equal length) in H. rewrite length_app in H.
  simpl in H. lia.
Qed.

Lemma isinstance_int_inv (v : PyVal) :
  isinstance_int v = true → ∃ z, numeric_value v = Some (FFinite (inject_Z z)).
Proof. destruct v; try done; by eauto. Qed.

Lemma isinstance_int_scalar (v : PyVal) :
  isinstance_int v = true → np_isscalar v = true.
Proof. by destruct v. Qed.

Lemma isinstance_int_format (v : PyVal) :
  isinstance_int v = true → ∃ s, format_int v = Some s.
Proof. destruct v as [|[]| | | | |]; try done; by eauto. Qed.

Lemma isinstance_int_add (v : PyVal) (k : Z) :
  isinstance_int v = true → isinstance_int (int_add v k) = true.
Proof. by destruct v. Qed.

Lemma py_lt_int_instance (v : PyVal) (z : Z) :
  isinstance_int v = true → ∃ b, py_lt v (PyInt z) = Ok b.
Proof.
  intros [z' Hv]%isinstance_int_inv. unfold py_lt. rewrite Hv.
  by eauto.
Qed.

(** What [arange] does once its three values are fixed. *)
Lemma arange_ints_outcome (C : Client) (args : list PyVal)
    (start stop stride : PyVal) (t : list request) :
  arange_args args = Ok (start, stop, stride) →
  isinstance_int start = true → isinstance_int stop = true →
  isinstance_int stride = true → py_eq_zero stride = false →
  ∃ msg, arange C args t
         = (match server C t (ReqText msg) with
            | Ok repMsg => create_pdarray C repMsg
            | Raise e => Raise e
            end, t ++ [ReqText msg]).
Proof.
  intros Hargs H1 H2 H3 H0. unfold arange, mbind, M_bind, lift.
  rewrite Hargs, H1, H2, H3, H0, !isinstance_int_scalar by done. simpl.
  destruct (py_lt_int_instance stride 0 H3) as [lt0 ->].
  destruct (isinstance_int_format start H1) as [s1 ->].
  destruct (isinstance_int_format stride H3) as [s3 ->].
  destruct (isinstance_int_format (if lt0 then int_add stop 2 else stop))
    as [s2 ->].
  { destruct lt0; [by apply isinstance_int_add|done]. }
  exists (arange_msg s1 s2 s3). unfold generic_msg.
  by destruct (server C t _).
Qed.

Lemma arange_rejects (C : Client) (args : list PyVal)
    (start stop stride : PyVal) (t : list request) :
  arange_args args = Ok (start, stop, stride) →
  isinstance_int start && isinstance_int stop && isinstance_int stride
    && negb (py_eq_zero stride) = false →
  ∃ e, arange C args t = (Raise e, t).
Proof.
  intros Hargs H. unfold arange, mbind, M_bind, lift. rewrite Hargs.
  destruct (np_isscalar start && np_isscalar stop && np_isscalar stride);
    simpl; [|by eauto].
  destruct (py_eq_zero stride); simpl; [by eauto|].
  rewrite andb_true_r in H. rewrite H. by eauto.
Qed.

End RequestFacts.

(** X10. [arange] sends a request exactly when it is called with one to
    three arguments that are all instances of [int] and a stride other than
    0; it then sends exactly one request, and in every other case it raises
    without sending. *)
Theorem arange_sends_iff (C : Creation.Client) (args : list PyVal)
    (t : list Creation.request) :
  let t' := snd (Creation.arange C args t) in
  (t' = t ∨ ∃ msg, t' = t ++ [Creation.ReqText msg]) ∧
  (t' ≠ t ↔
   ∃ start stop stride,
     Creation.arange_args args = Ok (start, stop, stride) ∧
     isinstance_int start = true ∧ isinstance_int stop = true ∧
     isinstance_int stride = true ∧ py_eq_zero stride = false) ∧
  (t' = t → ∃ e, fst (Creation.arange C args t) = Raise e).
Proof.
  intros t'. unfold t'.
  destruct (Creation.arange_args args) as [[[start stop] stride]|e] eqn:Ha.
  2: { unfold Creation.arange, mbind, M_bind, lift. rewrite Ha. simpl.
       split; [by left|]. split; [|by eauto].
       split; [done|]. by intros (? & ? & ? & ? & _). }
  destruct (isinstance_int start && isinstance_int stop
            && isinstance_int stride && negb (py_eq_zero stride)) eqn:Hb.
  - apply andb_true_iff in Hb as [[[H1 H2]%andb_true_iff H3]%andb_true_iff H0].
    apply negb_true_iff in H0.
    destruct (arange_ints_outcome C args start stop stride t)
      as [msg ->]; try done.
    simpl. split; [by eauto|]. split.
    + split; [|intros _; apply app_singleton_neq]. intros _.
      by exists start, stop, stride.
    + intros Ht. by apply app_singleton_neq in Ht.
  - destruct (arange_rejects C args start stop stride t Ha Hb) as [e ->].
    simpl. split; [by left|]. split; [|by eauto].
    split; [done|].
    intros (? & ? & ? & [= <- <- <-] & H1 & H2 & H3 & H0).
    by rewrite H1, H2, H3, H0 in Hb.
Qed.

(** X11. Called with no argument, or with more than three, [arange] raises
    [UnboundLocalError]: none of its three blocks assigns [start] before it
    is read. *)
Theorem arange_wrong_arity (C : Creation.Client) (args : list PyVal)
    (t : list Creation.request) :
  (length args = 0 ∨ 3 < length args)%nat →
  Creation.arange C args t = (Raise UnboundLocalError, t).
Proof.
  intros H. unfold Creation.arange, mbind, M_bind, lift.
  destruct args as [|a0 [|a1 [|a2 [|a3 args]]]]; simpl in *; try lia; done.
Qed.

Lemma arange_wrong_arity_witness :
  Creation.arange (TestClient.client (2 ^ 30))
    [PyInt 0; PyInt 10; PyInt 2; PyInt 1] []
  = (Raise UnboundLocalError, []).
Proof. apply arange_wrong_arity. simpl. lia. Defined.

(** X12. With integer arguments, [randint] rejects a negative [size] and a
    [high] below [low] with [ValueError] before it looks at the dtype and
    before any request. *)
Theorem randint_rejects_bad_range (C : Creation.Client) (low high size : Z)
    (dtype : PyVal) (t : list Creation.request) :
  Creation.resolve_scalar_dtype C (PyInt size) = "int64"%string →
  size < 0 ∨ high < low →
  Creation.randint C (PyInt low) (PyInt high) (PyInt size) dtype t
  = (Raise ValueError, t).
Proof.
  intros Hres Hbad. unfold Creation.randint, mbind, M_bind, lift. simpl.
  rewrite Hres. simpl. rewrite ?py_lt_int, ?float_lt_int.
  destruct (Z.ltb_spec size 0); simpl; [done|].
  rewrite (proj2 (Z.ltb_lt high low)) by lia. done.
Qed.

Lemma randint_rejects_bad_range_witness :
  Creation.randint (TestClient.client (2 ^ 30))
    (PyInt 5) (PyInt 4) (PyInt 3) (PyStr (str_of "no such dtype")) []
  = (Raise ValueError, []).
Proof. apply randint_rejects_bad_range; [reflexivity|lia]. Defined.

(** X13. With an integer [size], [standard_normal] sends a request exactly
    when [size] is not negative and its text can be formatted; a negative
    [size] raises [ValueError] and sends nothing. *)
Theorem standard_normal_sends_iff (C : Creation.Client) (size : Z)
    (t : list Creation.request) :
  (snd (Normal.standard_normal C (PyInt size) t) ≠ t ↔
   0 ≤ size ∧ ∃ s, Creation.number_format C "int64" (PyInt size) = Ok s) ∧
  (0 ≤ size ∨
   Normal.standard_normal C (PyInt size) t = (Raise ValueError, t)).
Proof.
  unfold Normal.standard_normal, mbind, M_bind, lift.
  rewrite py_lt_int.
  destruct (Z.ltb_spec size 0) as [Hneg|Hpos]; simpl.
  - split; [|by right]. split; [done|]. intros [? _]. lia.
  - split; [|by left].
    destruct (Creation.number_format C "int64" (PyInt size)) as [s|e];
      simpl.
    + unfold Creation.generic_msg.
      destruct (Creation.server C t _); simpl;
        (split; [by eauto|intros _; apply app_singleton_neq]).
    + split; [done|]. by intros [_ [s ?]].
Qed.

(** ** More on [array] *)

Section StringSegments.

Import Creation.

(** The buffer the string path should build: each string followed by its
    terminator. *)
Local Abbreviation segments elems :=
  (concat ((fun s : pystr => s ++ [0]) <$> elems)).

Lemma offsets_from (acc : Z) (lengths : list Z) :
  zip_with Z.sub (cumsum_from acc lengths) lengths
  = (fun i => acc + foldr Z.add 0 (take i lengths))
      <$> seq 0 (length lengths).
Proof.
  revert acc. induction lengths as [|x l IH]; intros acc; [done|].
  simpl. f_equal; [lia|].
  rewrite IH, <- fmap_S_seq, <- list_fmap_compose.
  apply list_fmap_ext. intros _ i _. simpl. lia.
Qed.

Lemma offsets_cons (acc x : Z) (lengths : list Z) :
  zip_with Z.sub (cumsum_from acc (x :: lengths)) (x :: lengths)
  = acc :: zip_with Z.sub (cumsum_from (acc + x) lengths) lengths.
Proof. simpl. f_equal. lia. Qed.

Lemma total_length (elems : list pystr) :
  foldr Z.add 0 (string_lengths elems) = Z.of_nat (length (segments elems)).
Proof.
  induction elems as [|s elems IH]; [done|].
  change (segments (s :: elems)) with ((s ++ [0]) ++ segments elems).
  change (string_lengths (s :: elems))
    with ((Z.of_nat (length s) + 1) :: string_lengths elems).
  rewrite !length_app. change (length [0]) with 1%nat.
  simpl foldr. rewrite IH. lia.
Qed.

Lemma setitem_in_range (values : list Z) (i : nat) (b : Z) :
  (i < length values)%nat →
  setitem values (Z.of_nat i) b = Ok (<[i := b]> values).
Proof.
  intros Hi. unfold setitem.
  rewrite (proj2 (Z.leb_le _ _)), (proj2 (Z.ltb_lt _ _)) by lia.
  simpl. by rewrite Nat2Z.id.
Qed.

(** Writing [bs] into a run of zeros that is long enough. *)
Lemma fill_segment_zeros (pre written bs : list Z) (k : nat) :
  (length bs ≤ k)%nat →
  fill_segment (pre ++ written ++ replicate k 0)
    (Z.of_nat (length pre)) (Z.of_nat (length written)) bs
  = Ok (pre ++ written ++ bs ++ replicate (k - length bs) 0).
Proof.
  revert written k. induction bs as [|b bs IH]; intros written k Hk.
  - simpl. by rewrite Nat.sub_0_r.
  - destruct k as [|k]; simpl in Hk; [lia|].
    simpl fill_segment.
    replace (Z.of_nat (length pre) + Z.of_nat (length written))
      with (Z.of_nat (length pre + length written)) by lia.
    rewrite setitem_in_range by (rewrite !length_app; simpl; lia).
    simpl.
    rewrite insert_app_r, insert_app_r_alt, Nat.sub_diag by lia.
    simpl.
    replace (Z.of_nat (length written) + 1)
      with (Z.of_nat (length (written ++ [b])))
      by (rewrite length_app; simpl; lia).
    replace (pre ++ written ++ b :: replicate k 0)
      with (pre ++ (written ++ [b]) ++ replicate k 0)
      by (by rewrite <- (app_assoc written)).
    rewrite IH by lia. by rewrite <- (app_assoc written).
Qed.

(** On ASCII text the loops fill the buffer with the segments. *)
Lemma fill_values_ascii (elems : list pystr) (pre : list Z) (acc : Z) :
  Forall (Forall (fun c => 0 ≤ c < 128)) elems →
  acc = Z.of_nat (length pre) →
  fill_values (pre ++ replicate (length (segments elems)) 0)
    (zip elems
       (zip_with Z.sub (cumsum_from acc (string_lengths elems))
          (string_lengths elems)))
  = Ok (pre ++ segments elems).
Proof.
  intros Hascii. revert pre acc.
  induction Hascii as [|s elems Hs _ IH]; intros pre acc ->.
  - simpl. by rewrite !app_nil_r.
  - change (string_lengths (s :: elems))
      with ((Z.of_nat (length s) + 1) :: string_lengths elems).
    rewrite offsets_cons. simpl zip. simpl fill_values.
    rewrite (encode_ascii_text s Hs). simpl mbind.
    change (concat ((λ s0 : pystr, s0 ++ [0]) <$> s :: elems))
      with ((s ++ [0]) ++ segments elems).
    match goal with
    | |- ?F ≫= ?k = _ =>
        replace F
          with (Ok (A:=list Z) ((pre ++ s ++ [0])
                  ++ replicate (length (segments elems)) 0))
    end.
    + simpl mbind. rewrite (IH (pre ++ s ++ [0])).
      * by rewrite <- !app_assoc.
      * rewrite !length_app. simpl. lia.
    + symmetry.
      pose proof (fill_segment_zeros pre [] s
                    (length ((s ++ [0]) ++ segments elems))) as Hfill.
      etrans; [apply Hfill; rewrite !length_app; lia|].
      f_equal. simpl. rewrite <- !app_assoc. do 2 f_equal.
      match goal with
      | |- replicate ?n 0 = _ =>
          replace n with (S (length (segments elems)))
            by (rewrite !length_app; simpl; lia)
      end.
      done.
Qed.

Lemma fill_values_ascii_buffer (elems : list pystr) :
  Forall (Forall (fun c => 0 ≤ c < 128)) elems →
  fill_values (replicate (length (segments elems)) 0)
    (zip elems (string_offsets (string_lengths elems)))
  = Ok (segments elems).
Proof.
  intros Hascii. exact (fill_values_ascii elems [] 0 Hascii eq_refl).
Qed.

Lemma bind_lift_Ok {R A B} (x : A) (k : A → M R B) (t : list R) :
  (lift (Ok x) ≫= k) t = k x t.
Proof. reflexivity. Qed.

End StringSegments.

(** X14. The offsets [array] derives for a string array are the running
    totals of the segment lengths before each element: the first is 0 and
    each next one adds the length of the element before it, terminator
    included. *)
Theorem string_offsets_running_totals (lengths : list Z) :
  Creation.string_offsets lengths
  = (fun i => foldr Z.add 0 (take i lengths)) <$> seq 0 (length lengths).
Proof.
  unfold Creation.string_offsets, Creation.cumsum. rewrite offsets_from.
  apply list_fmap_ext. intros _ i _. lia.
Qed.

(** X15. For a non-empty array of ASCII strings within the transfer limit,
    [array] amounts to two numeric transfers: first the [int64] offsets,
    then the [uint8] buffer that holds every string followed by a zero
    byte, in order. *)
Theorem array_ascii_strings (C : Creation.Client) (depth : nat)
    (elems : list pystr) (t : list Creation.request) :
  elems ≠ [] →
  Forall (Forall (fun c => 0 ≤ c < 128)) elems →
  Z.of_nat (length (concat ((fun s : pystr => s ++ [0]) <$> elems)))
    ≤ Creation.maxTransferBytes C →
  Creation.array C (S (S depth))
    (Creation.ArgNdarray (Creation.str_ndarray elems)) t
  = (o ← Creation.array_numeric C "int64" 8
           (PyInt <$> Creation.string_offsets (Creation.string_lengths elems));
     v ← Creation.array_numeric C "uint8" 1
           (PyInt <$> concat ((fun s : pystr => s ++ [0]) <$> elems));
     mret (Creation.Strings o v)) t.
Proof.
  intros Hne Hascii Hlimit.
  rewrite array_depth.
  change (Creation.array C 2 _ t)
    with (Creation.array_ndarray C (Creation.array C 1)
            (Creation.str_ndarray elems) t).
  unfold Creation.array_ndarray, Creation.str_ndarray.
  cbn [Creation.nd_ndim Creation.nd_data Nat.eqb negb].
  rewrite string_nbytes_total by (by destruct elems).
  rewrite total_length, bind_lift_Ok.
  destruct (Z.gtb_spec
              (Z.of_nat (length (concat ((fun s : pystr => s ++ [0])
                                           <$> elems))))
              (Creation.maxTransferBytes C)) as [Hgt|_]; [lia|].
  rewrite Nat2Z.id, fill_values_ascii_buffer, bind_lift_Ok by done.
  reflexivity.
Qed.

Lemma array_ascii_strings_witness :
  Creation.array (TestClient.client (2 ^ 30)) 2
    (Creation.ArgNdarray (Creation.str_ndarray [str_of "ab"; str_of "c"]))
    []
  = (o ← Creation.array_numeric (TestClient.client (2 ^ 30)) "int64" 8
           (PyInt <$> Creation.string_offsets
                        (Creation.string_lengths [str_of "ab"; str_of "c"]));
     v ← Creation.array_numeric (TestClient.client (2 ^ 30)) "uint8" 1
           (PyInt <$> concat ((fun s : pystr => s ++ [0])
                                <$> [str_of "ab"; str_of "c"]));
     mret (Creation.Strings o v)) [].
Proof.
  apply (array_ascii_strings (TestClient.client (2 ^ 30)) 0
           [str_of "ab"; str_of "c"] []).
  - done.
  - repeat constructor; lia.
  - vm_compute. discriminate.
Defined.

(** X16. The two recursive calls of [array] are made on rank-1 numeric
    arrays and never recurse again: once two levels of recursion are
    available, any further depth gives the same outcome. *)
Theorem array_two_levels_suffice (C : Creation.Client) (depth : nat)
    (arg : Creation.array_arg) (t : list Creation.request) :
  Creation.array C (S (S depth)) arg t = Creation.array C 2 arg t.
Proof.
  change (Creation.array_body C (Creation.array C (S depth)) arg t
          = Creation.array_body C (Creation.array C 1) arg t).
  destruct arg as [p|a|o]; simpl;
    [done| |destruct (Creation.np_array C o); [|done]];
    by apply array_ndarray_ext.
Qed.

(** ** More on [attach], and the batch operations *)

Section AttachDispatch.

Import Registry.

Context {handle : Type} (C : Client handle).

(** A branch is skipped when the reply carries a string tag that differs
    from the branch's tag once both are lower-cased. *)
Local Abbreviation skips rep_msg b :=
  (∃ tag, getitem rep_msg (str_of "objType") = Ok (JStr tag) ∧
          str_lower C tag ≠ str_lower C (fst b)).

Lemma tag_matches_false (rep_msg : json) (known : pystr) (k : kind) :
  tag_matches C rep_msg known = Ok false → skips rep_msg (known, k).
Proof.
  unfold tag_matches. simpl.
  destruct (getitem rep_msg (str_of "objType")) as [v|]; simpl; [|done].
  destruct v as [| | |tag| |]; simpl; try done.
  intros [= H%bool_decide_eq_false]. by exists tag.
Qed.

Lemma dispatch_None (rep_msg : json) (bs : list (pystr * kind)) :
  dispatch C rep_msg bs = Ok None →
  Forall (fun b => skips rep_msg b) bs.
Proof.
  induction bs as [|[known k] bs IH]; simpl; [by constructor|].
  destruct (tag_matches C rep_msg known) as [[]|] eqn:E; simpl; [| |done].
  - destruct (getitem rep_msg (str_of "create")) as [c|]; simpl; [|done].
    by destruct (construct C k c).
  - intros H. constructor; [by eapply tag_matches_false|by apply IH].
Qed.

(** The first branch whose tag matches decides the outcome. *)
Lemma dispatch_first_match (rep_msg : json) (tag known : pystr) (k : kind)
    (bs1 bs2 : list (pystr * kind)) :
  getitem rep_msg (str_of "objType") = Ok (JStr tag) →
  Forall (fun b => str_lower C tag ≠ str_lower C (fst b)) bs1 →
  str_lower C tag = str_lower C known →
  dispatch C rep_msg (bs1 ++ (known, k) :: bs2)
  = (c ← getitem rep_msg (str_of "create"); h ← construct C k c; Ok (Some h)).
Proof.
  intros Htag Hskip Hmatch. induction Hskip as [|[known' k'] bs1 Hne _ IH].
  - simpl. unfold tag_matches. rewrite Htag. simpl.
    by rewrite bool_decide_eq_true_2.
  - simpl. unfold tag_matches at 1. rewrite Htag. simpl.
    by rewrite bool_decide_eq_false_2.
Qed.

Lemma attach_trace (name : pystr) (t : list request) :
  snd (attach C name t)
  = t ++ [{| cmd := "attach"; args := [("name"%string, name)] |}].
Proof.
  unfold attach, generic_msg, mbind, M_bind, lift.
  destruct (server C t _) as [reply|]; [|reflexivity].
  destruct (json_loads C reply) as [rep_msg|]; [|reflexivity].
  destruct (dispatch C rep_msg (branches C)); reflexivity.
Qed.

End AttachDispatch.


(** X18. [attach] returns [None] only for an unknown tag: the reply then
    decoded to an object whose ["objType"] is a string that, lower-cased,
    differs from every known tag. *)
Theorem attach_None_only_if_unknown {handle : Type}
    (C : Registry.Client handle) (name : pystr)
    (t : list Registry.request) :
  fst (Registry.attach C name t) = Ok None →
  ∃ (reply : string) (rep_msg : Registry.json) (tag : pystr),
    Registry.server C t (Batch.attach_request name) = Ok reply ∧
    Registry.json_loads C reply = Ok rep_msg ∧
    Registry.getitem rep_msg (str_of "objType") = Ok (Registry.JStr tag) ∧
    ∀ known : pystr,
      known ∈ Registry.known_tags C →
      Registry.str_lower C tag ≠ Registry.str_lower C known.
Proof.
  unfold Registry.attach, Registry.generic_msg, mbind, M_bind, lift.
  fold (Batch.attach_request name).
  destruct (Registry.server C t _) as [reply|] eqn:Hs; [|done].
  destruct (Registry.json_loads C reply) as [rep_msg|] eqn:Hj; [|done].
  destruct (Registry.dispatch C rep_msg (Registry.branches C))
    as [[h|]|] eqn:Hd; try done.
  intros _. apply dispatch_None in Hd.
  pose proof Hd as Hfirst. unfold Registry.branches in Hfirst.
  apply Forall_inv in Hfirst as (tag & Htag & _).
  exists reply, rep_msg, tag. repeat split; try done.
  intros known (b & -> & Hb)%list_elem_of_fmap.
  rewrite Forall_forall in Hd. destruct (Hd b Hb) as (tag' & Htag' & Hne).
  rewrite Htag in Htag'. by injection Htag' as <-.
Qed.

Lemma attach_None_only_if_unknown_witness :
  ∃ (reply : string) (rep_msg : Registry.json) (tag : pystr),
    Registry.server (TestClient.registry Samples.unknown_reply) []
      (Batch.attach_request (str_of "m")) = Ok reply ∧
    Registry.json_loads (TestClient.registry Samples.unknown_reply) reply
      = Ok rep_msg ∧
    Registry.getitem rep_msg (str_of "objType") = Ok (Registry.JStr tag) ∧
    ∀ known : pystr,
      known ∈ Registry.known_tags (TestClient.registry Samples.unknown_reply) →
      Registry.str_lower (TestClient.registry Samples.unknown_reply) tag
      ≠ Registry.str_lower (TestClient.registry Samples.unknown_reply) known.
Proof.
  apply (attach_None_only_if_unknown
           (TestClient.registry Samples.unknown_reply) (str_of "m") []).
  reflexivity.
Defined.

(** X19. The first branch of [attach] whose tag equals the reply's tag up to
    case decides the outcome: the object is built by that branch's
    constructor from [rep_msg["create"]] and returned with
    [registered_name] set to the name. *)
Theorem attach_first_match {handle : Type} (C : Registry.Client handle)
    (name : pystr) (t : list Registry.request) (reply : string)
    (rep_msg c : Registry.json) (tag known : pystr) (k : Registry.kind)
    (bs1 bs2 : list (pystr * Registry.kind)) :
  Registry.branches C = bs1 ++ (known, k) :: bs2 →
  Registry.server C t (Batch.attach_request name) = Ok reply →
  Registry.json_loads C reply = Ok rep_msg →
  Registry.getitem rep_msg (str_of "objType") = Ok (Registry.JStr tag) →
  Forall (fun b => Registry.str_lower C tag ≠ Registry.str_lower C (fst b))
    bs1 →
  Registry.str_lower C tag = Registry.str_lower C known →
  Registry.getitem rep_msg (str_of "create") = Ok c →
  Registry.attach C name t
  = (h ← Registry.construct C k c;
     Ok (Some {| Registry.object := h; Registry.registered_name := name |}),
     t ++ [Batch.attach_request name]).
Proof.
  intros Hbs Hs Hj Htag Hskip Hmatch Hc.
  unfold Registry.attach, Registry.generic_msg, mbind, M_bind, lift.
  fold (Batch.attach_request name). rewrite Hs, Hj, Hbs.
  rewrite (dispatch_first_match C rep_msg tag known k) by done.
  rewrite Hc. simpl. by destruct (Registry.construct C k c).
Qed.

Lemma attach_first_match_witness :
  Registry.attach (TestClient.registry Samples.upper_case_reply)
    (str_of "my_array") []
  = (h ← Ok (Registry.KPdarray,
             Registry.JStr (str_of "created id_7 int64 3 1 (3,) 8"));
     Ok (Some {| Registry.object := h;
                 Registry.registered_name := str_of "my_array" |}),
     [] ++ [Batch.attach_request (str_of "my_array")]).
Proof.
  apply (attach_first_match (TestClient.registry Samples.upper_case_reply)
           (str_of "my_array") [] "reply" Samples.upper_case_reply
           (Registry.JStr (str_of "created id_7 int64 3 1 (3,) 8"))
           (str_of "PDARRAY") (str_of "pdarray") Registry.KPdarray []
           (tail (Registry.branches
                    (TestClient.registry Samples.upper_case_reply))));
    try reflexivity.
  constructor.
Defined.

(** X20. When the reply decodes to an object that has no ["objType"] entry,
    [attach] raises [KeyError]; when the entry is there but is not a
    string, it raises [AttributeError].  Either way the request has been
    sent. *)
Theorem attach_reply_without_tag {handle : Type}
    (C : Registry.Client handle) (name : pystr) (t : list Registry.request)
    (reply : string) (fields : list (pystr * Registry.json)) :
  Registry.server C t (Batch.attach_request name) = Ok reply →
  Registry.json_loads C reply = Ok (Registry.JObj fields) →
  (∀ tag, Registry.lookup_key (str_of "objType") fields
          ≠ Some (Registry.JStr tag)) →
  Registry.attach C name t
  = (Raise match Registry.lookup_key (str_of "objType") fields with
           | None => KeyError
           | Some _ => AttributeError
           end,
     t ++ [Batch.attach_request name]).
Proof.
  intros Hs Hj Htag.
  unfold Registry.attach, Registry.generic_msg, mbind, M_bind, lift.
  fold (Batch.attach_request name). rewrite Hs, Hj.
  unfold Registry.branches. simpl Registry.dispatch.
  unfold Registry.tag_matches, Registry.getitem.
  destruct (Registry.lookup_key (str_of "objType") fields) as [v|] eqn:Hv;
    simpl; [|done].
  destruct v as [| | |tag| |]; simpl; try done.
  by destruct (Htag tag).
Qed.

Lemma attach_reply_without_tag_witness :
  Registry.attach (TestClient.registry Samples.untagged_reply)
    (str_of "my_array") []
  = (Raise KeyError, [] ++ [Batch.attach_request (str_of "my_array")]).
Proof.
  apply (attach_reply_without_tag
           (TestClient.registry Samples.untagged_reply) (str_of "my_array")
           [] "reply"
           [(str_of "create", Registry.JStr (str_of "created id_7"))]);
    try reflexivity.
  intros tag. vm_compute. discriminate.
Defined.

(** ** [unregister_all] and [attach_all] *)

Section BatchFacts.

Import Registry Batch.

Context {handle : Type} (C : Client handle).

Lemma unregister_all_run (names : list pystr) (t : list request) :
  ∃ k : nat,
    (k ≤ length names)%nat ∧
    snd (unregister_all C names t)
    = t ++ (unregister_request <$> take k names) ∧
    match fst (unregister_all C names t) with
    | Ok _ => k = length names
    | Raise e =>
        ∃ n, names !! pred k = Some n ∧ (0 < k)%nat ∧
             server C (t ++ (unregister_request <$> take (pred k) names))
               (unregister_request n) = Raise e
    end.
Proof.
  revert t. induction names as [|n names IH]; intros t.
  - exists 0%nat. simpl. by rewrite app_nil_r.
  - simpl. unfold mbind, M_bind, unregister, generic_msg.
    destruct (server C t (unregister_request n)) as [reply|e] eqn:Hs.
    + destruct (IH (t ++ [unregister_request n])) as (k & Hk & Htr & Hres).
      exists (S k). split; [simpl; lia|]. split.
      * rewrite Htr. simpl. by rewrite <- app_assoc.
      * destruct (fst (unregister_all C names (t ++ [unregister_request n])))
          as [u|e]; [by rewrite Hres|].
        destruct Hres as (n' & Hn' & Hpos & Hfail).
        exists n'. destruct k as [|k]; [lia|]. simpl in *.
        split; [done|]. split; [lia|].
        by rewrite <- app_assoc in Hfail.
    + exists 1%nat. simpl. split; [lia|]. split; [done|].
      exists n. simpl. rewrite app_nil_r. repeat split; [lia|done].
Qed.

Lemma dict_set_keys {V} (k : pystr) (v : V) (d : list (pystr * V)) :
  (dict_set k v d).*1 = if decide (k ∈ d.*1) then d.*1 else d.*1 ++ [k].
Proof.
  induction d as [|[k' v'] d IH].
  - destruct (decide (k ∈ ([] : list (pystr * V)).*1)) as [Hin|_]; [|done].
    by apply elem_of_nil in Hin.
  - change (((k', v') :: d).*1) with (k' :: d.*1).
    cbn [dict_set]. case_bool_decide as Hk.
    + subst. destruct (decide (k ∈ k :: d.*1)) as [_|Hin]; [done|].
      destruct Hin. apply list_elem_of_here.
    + change (((k', v') :: dict_set k v d).*1)
        with (k' :: (dict_set k v d).*1).
      rewrite IH. destruct (decide (k ∈ d.*1)) as [Hin|Hin].
      * destruct (decide (k ∈ k' :: d.*1)) as [_|Hn]; [done|].
        destruct Hn. by apply list_elem_of_further.
      * destruct (decide (k ∈ k' :: d.*1)) as [Hn|_]; [|done].
        apply elem_of_cons in Hn as [?|?]; by subst.
Qed.

Lemma attach_all_from_run (names : list pystr) (t : list request)
    (d0 d : list (pystr * option (attached handle))) :
  fst (attach_all_from C d0 names t) = Ok d →
  snd (attach_all_from C d0 names t) = t ++ (attach_request <$> names) ∧
  (NoDup d0.*1 → NoDup d.*1) ∧
  (∀ n, n ∈ d.*1 ↔ n ∈ d0.*1 ∨ n ∈ names) ∧
  (NoDup (d0.*1 ++ names) → d.*1 = d0.*1 ++ names).
Proof.
  revert t d0. induction names as [|n names IH]; intros t d0.
  - simpl. intros [= <-]. rewrite !app_nil_r. repeat split; try done.
    + by left.
    + by intros [?|?%elem_of_nil].
  - simpl. unfold mbind, M_bind.
    pose proof (attach_trace C n t) as Htr.
    destruct (attach C n t) as [[v|e] t1]; simpl in Htr; subst t1; [|done].
    intros Hd. apply IH in Hd as (Htrace & Hnd & Hkeys & Horder).
    rewrite dict_set_keys in *.
    split; [by rewrite Htrace, <- app_assoc|].
    split; [|split].
    + intros H0. apply Hnd. case_decide; [done|].
      apply NoDup_app. split; [done|]. split.
      * by intros x Hx ->%list_elem_of_singleton.
      * apply NoDup_singleton.
    + intros x. rewrite Hkeys, elem_of_cons.
      case_decide as Hin.
      * split; [tauto|]. intros [?|[->|?]]; tauto.
      * rewrite elem_of_app, list_elem_of_singleton. tauto.
    + intros H0. pose proof H0 as H1.
      apply NoDup_app in H1 as (_ & Hdisj & _).
      rewrite decide_False in Horder.
      2: { intros Hin. apply (Hdisj n Hin), list_elem_of_here. }
      rewrite Horder; by rewrite <- app_assoc.
Qed.

End BatchFacts.

(** X21. [unregister_all] unregisters the names in order and stops at the
    first failure: the requests sent are those of a prefix of [names], it
    returns only when every name was sent, and when it raises, the error is
    the server's answer to the last request sent; the names before it stay
    unregistered. *)
Theorem unregister_all_stops_at_first_failure {handle : Type}
    (C : Registry.Client handle) (names : list pystr)
    (t : list Registry.request) :
  ∃ k : nat,
    (k ≤ length names)%nat ∧
    snd (Batch.unregister_all C names t)
    = t ++ (Batch.unregister_request <$> take k names) ∧
    match fst (Batch.unregister_all C names t) with
    | Ok _ => k = length names
    | Raise e =>
        ∃ n, names !! pred k = Some n ∧ (0 < k)%nat ∧
             Registry.server C
               (t ++ (Batch.unregister_request <$> take (pred k) names))
               (Batch.unregister_request n) = Raise e
    end.
Proof. apply unregister_all_run. Qed.

(** X22. When [attach_all] returns, it has sent one [attach] request per
    name, in order and repeated names included, and the dictionary it
    returns has exactly the given names as keys, each once; without
    repeated names the keys are in the order given. *)
Theorem attach_all_keys {handle : Type} (C : Registry.Client handle)
    (names : list pystr) (t : list Registry.request)
    (d : list (pystr * option (Registry.attached handle))) :
  fst (Batch.attach_all C names t) = Ok d →
  snd (Batch.attach_all C names t) = t ++ (Batch.attach_request <$> names) ∧
  NoDup d.*1 ∧
  (∀ n, n ∈ d.*1 ↔ n ∈ names) ∧
  (NoDup names → d.*1 = names).
Proof.
  intros Hd. unfold Batch.attach_all in *.
  apply attach_all_from_run in Hd as (Htrace & Hnd & Hkeys & Horder).
  split; [done|]. split; [apply Hnd; constructor|]. split.
  - intros n. rewrite Hkeys. split; [by intros [?%elem_of_nil|?]|by right].
  - intros Hn. by apply Horder.
Qed.

Lemma attach_all_keys_witness :
  snd (Batch.attach_all (TestClient.registry Samples.unknown_reply)
         [str_of "a"; str_of "b"; str_of "a"] [])
  = [] ++ (Batch.attach_request <$> [str_of "a"; str_of "b"; str_of "a"]) ∧
  NoDup [(str_of "a", @None (Registry.attached
                               (Registry.kind * Registry.json)));
         (str_of "b", None)].*1 ∧
  (∀ n, n ∈ [(str_of "a", @None (Registry.attached
                                   (Registry.kind * Registry.json)));
             (str_of "b", None)].*1
        ↔ n ∈ [str_of "a"; str_of "b"; str_of "a"]) ∧
  (NoDup [str_of "a"; str_of "b"; str_of "a"] →
   [(str_of "a", @None (Registry.attached (Registry.kind * Registry.json)));
    (str_of "b", None)].*1 = [str_of "a"; str_of "b"; str_of "a"]).
Proof.
  apply (attach_all_keys (TestClient.registry Samples.unknown_reply)
           [str_of "a"; str_of "b"; str_of "a"] []).
  reflexivity.
Defined.

(** ** [generic_concat] *)

Section ConcatFacts.

Import Concat.

Context {O : Type} (K : Classes O).

Lemma remove_dups_replicate {A} `{EqDecision A} (n : nat) (x : A) :
  remove_dups (replicate (S n) x) = [x].
Proof.
  induction n as [|n IH]; [done|].
  change (replicate (S (S n)) x) with (x :: replicate (S n) x).
  cbn [remove_dups]. destruct (decide_rel _ x (replicate (S n) x)) as [|Hn].
  - done.
  - destruct Hn. apply list_elem_of_here.
Qed.

Lemma types_of_lists (ls : list (list PyVal)) :
  type_of <$> (ItemList (O:=O) <$> ls) = replicate (length ls) TList.
Proof.
  induction ls as [|l ls IH]; [done|].
  rewrite !fmap_cons, IH. done.
Qed.

Lemma lists_of_lists (ls : list (list PyVal)) :
  list_of <$> (ItemList (O:=O) <$> ls) = ls.
Proof.
  induction ls as [|l ls IH]; [done|].
  rewrite !fmap_cons, IH. done.
Qed.

Lemma remove_dups_singleton {A} `{EqDecision A} (l : list A) (x y z : A) :
  remove_dups l = [z] → x ∈ l → y ∈ l → x = y.
Proof.
  intros Hd Hx Hy.
  apply elem_of_remove_dups in Hx, Hy. rewrite Hd in Hx, Hy.
  apply list_elem_of_singleton in Hx, Hy. congruence.
Qed.

End ConcatFacts.

(** X23. Given one or more lists, [generic_concat] returns their elements
    in order as one list, without calling any [concat] method. *)
Theorem generic_concat_lists {O : Type} (K : Concat.Classes O)
    (ls : list (list PyVal)) (ordered : bool) :
  ls ≠ [] →
  Concat.generic_concat K (Concat.ItemList <$> ls) ordered
  = Ok (Concat.ItemList (concat ls)).
Proof.
  intros Hne. unfold Concat.generic_concat.
  rewrite types_of_lists, lists_of_lists.
  destruct ls as [|l ls]; [done|].
  change (length (l :: ls)) with (S (length ls)).
  by rewrite remove_dups_replicate.
Qed.

Lemma generic_concat_lists_witness :
  Concat.generic_concat
    {| Concat.class_concat := fun _ => None;
       Concat.pdarrayconcatenate := fun (_ : list (Concat.item unit)) _ =>
                                      Raise TypeError |}
    (Concat.ItemList <$> [[PyInt 1; PyInt 2]; []; [PyInt 3]]) true
  = Ok (Concat.ItemList (concat [[PyInt 1; PyInt 2]; []; [PyInt 3]])).
Proof. by apply generic_concat_lists. Defined.

(** X24. [generic_concat] raises [TypeError] for an empty sequence and for
    items of more than one type, a list next to an object included; no
    [concat] method is called. *)
Theorem generic_concat_mixed_types {O : Type} (K : Concat.Classes O)
    (items : list (Concat.item O)) (ordered : bool) :
  items = [] ∨
  (∃ x y, x ∈ items ∧ y ∈ items ∧ Concat.type_of x ≠ Concat.type_of y) →
  Concat.generic_concat K items ordered = Raise TypeError.
Proof.
  intros [->|(x & y & Hx & Hy & Hne)]; [done|].
  unfold Concat.generic_concat.
  destruct (remove_dups (Concat.type_of <$> items)) as [|t [|t' ts]] eqn:E;
    [done| |by destruct t].
  destruct Hne.
  eapply (remove_dups_singleton _ _ _ _ E); by apply list_elem_of_fmap_2.
Qed.

Lemma generic_concat_mixed_types_witness :
  Concat.generic_concat
    {| Concat.class_concat := fun _ => None;
       Concat.pdarrayconcatenate := fun (l : list (Concat.item unit)) _ =>
                                      Ok (Concat.ItemObject "pdarray" tt) |}
    [Concat.ItemList [PyInt 1]; Concat.ItemObject "pdarray" tt] true
  = Raise TypeError.
Proof.
  apply generic_concat_mixed_types. right.
  exists (Concat.ItemList [PyInt 1]), (Concat.ItemObject "pdarray" tt).
  split; [apply list_elem_of_here|].
  split; [apply list_elem_of_further, list_elem_of_here|done].
Defined.

(** ** [sparse_sum_help] *)

Section SparseSumFacts.

Import SparseSum.

Lemma split_plus_first (inds vals : string) :
  Forall (fun c => c ≠ plus) (list_ascii_of_string inds) →
  split_plus (inds ++ String plus vals) = Some (inds, vals).
Proof.
  induction inds as [|c inds IH]; simpl; intros H.
  - done.
  - apply Forall_cons in H as [Hc H].
    rewrite (proj2 (Ascii.eqb_neq _ _) Hc), IH by done. done.
Qed.

Lemma split_plus_none (s : string) :
  Forall (fun c => c ≠ plus) (list_ascii_of_string s) →
  split_plus s = None.
Proof.
  induction s as [|c s IH]; simpl; intros H; [done|].
  apply Forall_cons in H as [Hc H].
  by rewrite (proj2 (Ascii.eqb_neq _ _) Hc), IH.
Qed.

End SparseSumFacts.

(** X25. [sparse_sum_help] sends one request that carries [merge] and
    [percent_transfer_limit] as given, and splits the reply at its first
    ["+"]: the text before it becomes the indices handle, everything after
    it, further ["+"] included, the values handle. *)
Theorem sparse_sum_help_splits_reply (C : SparseSum.Client)
    (idx1 idx2 val1 val2 : Creation.pdarray) (merge : bool) (limit : Z)
    (t : list SparseSum.request) (inds vals : string) :
  let req :=
    {| SparseSum.cmd := "sparseSumHelp"; SparseSum.idx1 := idx1;
       SparseSum.idx2 := idx2; SparseSum.val1 := val1;
       SparseSum.val2 := val2; SparseSum.merge := merge;
       SparseSum.percent_transfer_limit := limit |} in
  Forall (fun c => c ≠ SparseSum.plus) (list_ascii_of_string inds) →
  SparseSum.server C t req = Ok (inds ++ String SparseSum.plus vals)%string →
  SparseSum.sparse_sum_help C idx1 idx2 val1 val2 merge limit t
  = (i ← SparseSum.create_pdarray C inds;
     v ← SparseSum.create_pdarray C vals;
     Ok (i, v),
     t ++ [req]).
Proof.
  intros req Hinds Hreply.
  unfold SparseSum.sparse_sum_help, SparseSum.generic_msg, mbind at 1,
    M_bind at 1.
  fold req. rewrite Hreply, split_plus_first by done.
  unfold mbind, M_bind, lift.
  destruct (SparseSum.create_pdarray C inds); simpl; [|done].
  by destruct (SparseSum.create_pdarray C vals).
Qed.

Lemma sparse_sum_help_splits_reply_witness :
  SparseSum.sparse_sum_help (Samples.sparse_client "id_1 int64+id_2 a+b")
    (Samples.handle_of "i1") (Samples.handle_of "i2")
    (Samples.handle_of "v1") (Samples.handle_of "v2") true 100 []
  = (i ← Ok (Samples.handle_of "id_1 int64");
     v ← Ok (Samples.handle_of "id_2 a+b");
     Ok (i, v),
     [] ++ [{| SparseSum.cmd := "sparseSumHelp";
               SparseSum.idx1 := Samples.handle_of "i1";
               SparseSum.idx2 := Samples.handle_of "i2";
               SparseSum.val1 := Samples.handle_of "v1";
               SparseSum.val2 := Samples.handle_of "v2";
               SparseSum.merge := true;
               SparseSum.percent_transfer_limit := 100 |}]).
Proof.
  apply (sparse_sum_help_splits_reply
           (Samples.sparse_client "id_1 int64+id_2 a+b") _ _ _ _ true 100 []
           "id_1 int64" "id_2 a+b").
  - repeat constructor; done.
  - reflexivity.
Defined.

(** X26. A reply without ["+"] makes [sparse_sum_help] raise [ValueError],
    after its request was sent: the split has one part where two are
    unpacked. *)
Theorem sparse_sum_help_reply_without_plus (C : SparseSum.Client)
    (idx1 idx2 val1 val2 : Creation.pdarray) (merge : bool) (limit : Z)
    (t : list SparseSum.request) (reply : string) :
  let req :=
    {| SparseSum.cmd := "sparseSumHelp"; SparseSum.idx1 := idx1;
       SparseSum.idx2 := idx2; SparseSum.val1 := val1;
       SparseSum.val2 := val2; SparseSum.merge := merge;
       SparseSum.percent_transfer_limit := limit |} in
  Forall (fun c => c ≠ SparseSum.plus) (list_ascii_of_string reply) →
  SparseSum.server C t req = Ok reply →
  SparseSum.sparse_sum_help C idx1 idx2 val1 val2 merge limit t
  = (Raise ValueError, t ++ [req]).
Proof.
  intros req Hreply Hs.
  unfold SparseSum.sparse_sum_help, SparseSum.generic_msg, mbind, M_bind.
  fold req. by rewrite Hs, split_plus_none.
Qed.

Lemma sparse_sum_help_reply_without_plus_witness :
  SparseSum.sparse_sum_help (Samples.sparse_client "id_1 int64 5")
    (Samples.handle_of "i1") (Samples.handle_of "i2")
    (Samples.handle_of "v1") (Samples.handle_of "v2") false 50 []
  = (Raise ValueError,
     [] ++ [{| SparseSum.cmd := "sparseSumHelp";
               SparseSum.idx1 := Samples.handle_of "i1";
               SparseSum.idx2 := Samples.handle_of "i2";
               SparseSum.val1 := Samples.handle_of "v1";
               SparseSum.val2 := Samples.handle_of "v2";
               SparseSum.merge := false;
               SparseSum.percent_transfer_limit := 50 |}]).
Proof.
  apply (sparse_sum_help_reply_without_plus
           (Samples.sparse_client "id_1 int64 5") _ _ _ _ false 50 []
           "id_1 int64 5").
  - repeat constructor; done.
  - reflexivity.
Defined.

(** ** Inverting twice *)

Section InverseFacts.

Import Permutation.

Local Abbreviation inverse := Inverse.sorted_indices.

Lemma invert_permutation_value (perm : list Z) (t : list request) :
  NoDup perm →
  invert_permutation perm t
  = (Ok (inverse perm),
     t ++ [ReqUnique perm; ReqArange 0 (Z.of_nat (length perm)) 1;
           ReqCoargsort [perm; seqZ 0 (Z.of_nat (length perm))]]).
Proof.
  intros Hnd. rewrite invert_permutation_unfold, decide_True by done.
  unfold coargsort.
  assert (same_size [perm; seqZ 0 (Z.of_nat (length perm))] = true) as ->.
  { simpl. by rewrite length_seqZ, Nat2Z.id, Nat.eqb_refl. }
  by rewrite <- app_assoc.
Qed.

Lemma length_inverse (perm : list Z) : length (inverse perm) = length perm.
Proof.
  unfold Inverse.sorted_indices.
  rewrite length_fmap, (Permutation_length (sort_rows_perm _)).
  by rewrite length_fmap, length_seq.
Qed.

Lemma inverse_is_permutation (perm : list Z) : is_permutation (inverse perm).
Proof.
  unfold is_permutation. rewrite length_inverse.
  unfold Inverse.sorted_indices. rewrite sort_rows_perm.
  rewrite <- list_fmap_compose. unfold seqZ. rewrite Nat2Z.id.
  erewrite list_fmap_ext; [reflexivity|].
  intros _ i _. simpl. lia.
Qed.

Lemma inverse_lookup (perm : list Z) (i : nat) (v : Z) :
  is_permutation perm → perm !! i = Some v →
  inverse perm !! Z.to_nat v = Some (Z.of_nat i).
Proof.
  intros Hp Hv. unfold Inverse.sorted_indices. rewrite list_lookup_fmap.
  by rewrite (sort_rows_lookup perm i v Hp Hv).
Qed.

Lemma is_permutation_range (perm : list Z) (i : nat) (v : Z) :
  is_permutation perm → perm !! i = Some v → 0 ≤ v.
Proof.
  unfold is_permutation. intros Hp Hv.
  assert (v ∈ perm) as Hin by (by eapply list_elem_of_lookup_2).
  rewrite Hp in Hin. apply elem_of_seqZ in Hin. lia.
Qed.

Lemma inverse_inverse (perm : list Z) :
  is_permutation perm → inverse (inverse perm) = perm.
Proof.
  intros Hp. apply list_eq. intros i.
  destruct (perm !! i) as [v|] eqn:Hv.
  - pose proof (inverse_lookup perm i v Hp Hv) as Hinv.
    pose proof (inverse_lookup (inverse perm) _ _
                  (inverse_is_permutation perm) Hinv) as Hinv2.
    rewrite Nat2Z.id, Z2Nat.id in Hinv2; [done|].
    by eapply is_permutation_range.
  - apply lookup_ge_None. rewrite !length_inverse.
    by apply lookup_ge_None.
Qed.

End InverseFacts.

(** X27. With [unique] and [coargsort] modelled as above, the array
    [invert_permutation] returns for a permutation of [0, n) is again a
    permutation of [0, n), and inverting it gives back the original
    array. *)
Theorem invert_permutation_involution (perm : list Z)
    (t : list Permutation.request) :
  Permutation.is_permutation perm →
  ∃ (inv : list Z) (t1 t2 : list Permutation.request),
    Permutation.invert_permutation perm t = (Ok inv, t1) ∧
    Permutation.is_permutation inv ∧
    Permutation.invert_permutation inv t1 = (Ok perm, t2).
Proof.
  intros Hp.
  assert (NoDup perm) as Hnd.
  { unfold Permutation.is_permutation in Hp. rewrite Hp. apply NoDup_seqZ. }
  pose proof (inverse_is_permutation perm) as Hpi.
  assert (NoDup (Inverse.sorted_indices perm)) as Hndi.
  { unfold Permutation.is_permutation in Hpi. rewrite Hpi.
    apply NoDup_seqZ. }
  eexists _, _, _. split; [by apply invert_permutation_value|].
  split; [exact Hpi|].
  rewrite invert_permutation_value by done.
  by rewrite inverse_inverse.
Qed.

Lemma invert_permutation_involution_witness :
  ∃ (inv : list Z) (t1 t2 : list Permutation.request),
    Permutation.invert_permutation [2; 0; 3; 1] [] = (Ok inv, t1) ∧
    Permutation.is_permutation inv ∧
    Permutation.invert_permutation inv t1 = (Ok [2; 0; 3; 1], t2).
Proof.
  apply (invert_permutation_involution [2; 0; 3; 1] []).
  unfold Permutation.is_permutation. vm_compute seqZ.
  apply (@Permutation_cons_app _ _ [0; 1] [3] 2).
  apply perm_skip, Permutation_swap.
Defined.
